(** * Weather widget: multi-source fetch, normalisation and cache

    A shallow embedding of [Weather/script.js]: the three provider adapters
    ([fetchFromWeatherAPI], [fetchFromOpenMeteo], [fetchFromWttr]), the
    helpers that map weather codes and descriptions to texts and icon keys,
    and the orchestrator [fetchWeatherData] with its in-memory cache.

    Modelling conventions.
    - A JavaScript string is a [string] whose characters are UTF-16 code
      units in the Latin-1 range (0..255); on that range [toLowerCase],
      [trim] and [includes] are modelled exactly.
    - A JavaScript number is a [jsnum]: the real value a double denotes (as a
      rational), or NaN, or one of the infinities; -0 is identified with 0.
    - A call returns, throws, or (for an awaited promise) never settles:
      the type [outcome].
    - Parsed JSON is a [value]; property reads and coercions follow
      ECMAScript.  The two number/text conversions of the runtime that need
      the binary representation of doubles are parameters ([Runtime]).
    - The network is a function from requests to replies. [fetch] and
      [response.json()] are two promises, and each of them may be rejected
      or stay pending.
    - The page is a [page]: the value of the input field, the state of the
      button, the classes of the card, the text and the display style of
      the six elements, the timers set and the errors logged.
      [handleSearch], [displayWeatherData] and the functions that show a
      message pass it along. *)

From Stdlib Require Import ZArith QArith Qround String Ascii List Bool Lia.
From Stdlib Require Import DecimalString Lqa.
From stdpp Require Import base option functions gmap strings.

Close Scope Q_scope.
Open Scope string_scope.
Open Scope Z_scope.

(** ** Strings *)

Module JsString.

(** One code unit of [String.prototype.toLowerCase]: A-Z, and the Latin-1
    capitals U+00C0..U+00DE except the multiplication sign U+00D7. *)
Definition lower_unit (c : ascii) : ascii :=
  let n := N_of_ascii c in
  if ((65 <=? n) && (n <=? 90) || (192 <=? n) && (n <=? 214)
      || (216 <=? n) && (n <=? 222))%N
  then ascii_of_N (n + 32) else c.

Fixpoint toLowerCase (s : string) : string :=
  match s with
  | EmptyString => EmptyString
  | String c r => String (lower_unit c) (toLowerCase r)
  end.

(** WhiteSpace and LineTerminator code units below 256: TAB, LF, VT, FF, CR,
    SP and NBSP. *)
Definition is_white (c : ascii) : bool :=
  let n := N_of_ascii c in
  ((9 <=? n) && (n <=? 13) || (n =? 32) || (n =? 160))%N.

Fixpoint trimStart (s : string) : string :=
  match s with
  | EmptyString => EmptyString
  | String c r => if is_white c then trimStart r else s
  end.

Fixpoint trimEnd (s : string) : string :=
  match s with
  | EmptyString => EmptyString
  | String c r =>
      match trimEnd r with
      | EmptyString => if is_white c then EmptyString else String c EmptyString
      | r' => String c r'
      end
  end.

Definition trim (s : string) : string := trimEnd (trimStart s).

(** [search] occurs in [s] at position 0. *)
Fixpoint startsWith (s search : string) {struct search} : bool :=
  match search, s with
  | EmptyString, _ => true
  | String a search', String b s' => Ascii.eqb a b && startsWith s' search'
  | String _ _, EmptyString => false
  end.

(** [s.includes(search)]: [search] occurs in [s] at some position. *)
Fixpoint includes (s search : string) : bool :=
  startsWith s search ||
  match s with
  | EmptyString => false
  | String _ r => includes r search
  end.

End JsString.
Export JsString.

(** ** Numbers *)

Inductive jsnum : Type :=
| Num (q : Q)
| NaN
| PosInf
| NegInf.

Definition of_Z (z : Z) : jsnum := Num (inject_Z z).

Module JsNum.

(** [a === b] on numbers *)
Definition eqb (a b : jsnum) : bool :=
  match a, b with
  | Num p, Num q => Qeq_bool p q
  | PosInf, PosInf | NegInf, NegInf => true
  | _, _ => false
  end.

(** [a <= b] *)
Definition leb (a b : jsnum) : bool :=
  match a, b with
  | NaN, _ | _, NaN => false
  | NegInf, _ | _, PosInf => true
  | Num p, Num q => Qle_bool p q
  | _, _ => false
  end.

(** [a < b] *)
Definition ltb (a b : jsnum) : bool :=
  match a, b with
  | NaN, _ | _, NaN => false
  | PosInf, _ | _, NegInf => false
  | Num p, Num q => negb (Qle_bool q p)
  | _, _ => true
  end.

(** [a >= b] *)
Definition geb (a b : jsnum) : bool := leb b a.

(** [Math.round]: the nearest integer, ties towards +Infinity. *)
Definition round (a : jsnum) : jsnum :=
  match a with
  | Num q => of_Z (Qfloor (Qplus q (1 # 2)))
  | _ => a
  end.

(** The integer a number is equal to, if it is one. *)
Definition to_integer (a : jsnum) : option Z :=
  match a with
  | Num q => if Qeq_bool q (inject_Z (Qfloor q)) then Some (Qfloor q) else None
  | _ => None
  end.

End JsNum.

(** ** Completions *)

#[warnings="-register-all"] Inductive error : Type :=
| Error (message : string)      (* new Error(message) *)
| TypeError                     (* thrown by the runtime *)
| SyntaxError                   (* response.json() on a body that is not JSON *)
| NetworkError                  (* fetch() rejected *)
| AggregateError (errors : list error).

Inductive outcome (A : Type) : Type :=
| Ret (a : A)
| Throw (e : error)
| Never.
Arguments Ret {A} a.
Arguments Throw {A} e.
Arguments Never {A}.

Definition obind {A B} (m : outcome A) (f : A -> outcome B) : outcome B :=
  match m with
  | Ret a => f a
  | Throw e => Throw e
  | Never => Never
  end.

#[global] Instance outcome_ret : MRet outcome := @Ret.
#[global] Instance outcome_bind : MBind outcome := fun A B f m => obind m f.

(** ** Values *)

(** A value read from a parsed JSON body ([undefined] is what reading a
    missing property gives). [VObj] lists the own properties of an object. *)
#[warnings="-register-all"] Inductive value : Type :=
| VUndefined
| VNull
| VBool (b : bool)
| VNum (n : jsnum)
| VStr (s : string)
| VArr (elems : list value)
| VObj (props : list (string * value)).

(** The runtime's conversions between numbers and text. *)
Class Runtime : Type := {
  Number_toString : jsnum -> string;   (* Number::toString, radix 10 *)
  StringToNumber : string -> jsnum     (* StringToNumber *)
}.

Fixpoint own (props : list (string * value)) (k : string) : option value :=
  match props with
  | [] => None
  | (k', v) :: rest => if String.eqb k' k then Some v else own rest k
  end.

(** The digits of [parseInt]: it reads the longest prefix of digits of the
    radix and gives NaN when there is none. *)
Definition digit_value (radix : Z) (c : ascii) : option Z :=
  let n := Z.of_N (N_of_ascii c) in
  let d := if ((48 <=? n) && (n <=? 57))%Z then Some (n - 48)
           else if ((97 <=? n) && (n <=? 122))%Z then Some (n - 87)
           else if ((65 <=? n) && (n <=? 90))%Z then Some (n - 55)
           else None in
  match d with
  | Some v => if (v <? radix)%Z then Some v else None
  | None => None
  end.

Fixpoint parse_digits (radix : Z) (s : string) (acc : option Z) : option Z :=
  match s with
  | EmptyString => acc
  | String c r =>
      match digit_value radix c with
      | Some d => parse_digits radix r (Some (radix * default 0 acc + d))
      | None => acc
      end
  end.

(** The Number value of a mathematical integer: the integer itself up to
    53 bits, beyond that the nearest double (a tie goes to the even
    mantissa), and an infinity once the rounded magnitude reaches 2^1024. *)
Definition Number_of_integer (z : Z) : jsnum :=
  let a := Z.abs z in
  let e := Z.log2 a - 52 in
  if (e <=? 0)%Z then of_Z z
  else
    let q := Z.shiftr a e in
    let r := a - Z.shiftl q e in
    let half := 2 ^ (e - 1) in
    let q' := if (half <? r)%Z || ((r =? half)%Z && Z.odd q) then q + 1 else q in
    let m := Z.shiftl q' e in
    if (2 ^ 1024 <=? m)%Z then (if (z <? 0)%Z then NegInf else PosInf)
    else of_Z (Z.sgn z * m).

(** [parseInt] of a text, with no radix argument. The result is the Number
    value of the integer that the digits denote. (Past the 20th significant
    decimal digit ECMAScript lets an engine read the digits as zeros; the
    digits are all read here, as engines that round correctly do.) *)
Definition parseInt_string (input : string) : jsnum :=
  let s0 := trimStart input in
  let '(sign, s1) :=
    match s0 with
    | String "-"%char r => (-1, r)
    | String "+"%char r => (1, r)
    | _ => (1, s0)
    end in
  let '(radix, s2) :=
    match s1 with
    | String "0"%char (String "x"%char r) => (16, r)
    | String "0"%char (String "X"%char r) => (16, r)
    | _ => (10, s1)
    end in
  match parse_digits radix s2 None with
  | None => NaN
  | Some mathInt => Number_of_integer (sign * mathInt)
  end.

Section Coercions.
Context `{Runtime}.

(** [ToString]. An array is joined with commas; an object parsed from JSON
    prints as [object Object] unless it has an own property toString, which
    is then not callable and makes OrdinaryToPrimitive throw. *)
Fixpoint ToString (v : value) : outcome string :=
  match v with
  | VUndefined => Ret "undefined"
  | VNull => Ret "null"
  | VBool true => Ret "true"
  | VBool false => Ret "false"
  | VNum n => Ret (Number_toString n)
  | VStr s => Ret s
  | VArr elems =>
      (fix join (l : list value) : outcome string :=
         match l with
         | [] => Ret ""
         | x :: rest =>
             s ← match x with
                 | VUndefined | VNull => Ret ""
                 | _ => ToString x
                 end;
             match rest with
             | [] => Ret s
             | _ => t ← join rest; Ret (s ++ "," ++ t)
             end
         end) elems
  | VObj props =>
      match own props "toString" with
      | Some _ => Throw TypeError
      | None => Ret "[object Object]"
      end
  end.

(** [ToNumber] *)
Definition ToNumber (v : value) : outcome jsnum :=
  match v with
  | VUndefined => Ret NaN
  | VNull => Ret (of_Z 0)
  | VBool true => Ret (of_Z 1)
  | VBool false => Ret (of_Z 0)
  | VNum n => Ret n
  | VStr s => Ret (StringToNumber s)
  | VArr _ => s ← ToString v; Ret (StringToNumber s)
  | VObj _ => _ ← ToString v; Ret NaN
  end.

(** [ToBoolean] *)
Definition ToBoolean (v : value) : bool :=
  match v with
  | VUndefined | VNull => false
  | VBool b => b
  | VNum n => negb (JsNum.eqb n (of_Z 0)) && negb (match n with NaN => true | _ => false end)
  | VStr s => negb (String.eqb s "")
  | VArr _ | VObj _ => true
  end.

(** [v.k] and [v[0]] (the key "0") for the property names the adapters
    read. None of them is inherited from a prototype, except [length] of
    arrays and strings. *)
Definition get (v : value) (k : string) : outcome value :=
  match v with
  | VUndefined | VNull => Throw TypeError
  | VObj props => Ret (default VUndefined (own props k))
  | VArr elems =>
      if String.eqb k "length" then Ret (VNum (of_Z (Z.of_nat (List.length elems))))
      else if String.eqb k "0" then Ret (List.hd VUndefined elems)
      else Ret VUndefined
  | VStr s =>
      if String.eqb k "length" then Ret (VNum (of_Z (Z.of_nat (String.length s))))
      else if String.eqb k "0" then
        Ret (match s with
             | String c _ => VStr (String c EmptyString)
             | EmptyString => VUndefined
             end)
      else Ret VUndefined
  | VBool _ | VNum _ => Ret VUndefined
  end.

(** A chain of property reads, [v.k1.k2...]: it throws at the first read
    from [undefined] or [null]. *)
Fixpoint path (v : value) (ks : list string) : outcome value :=
  match ks with
  | [] => Ret v
  | k :: rest => x ← get v k; path x rest
  end.

(** [v.toLowerCase()]: only a string has the method. *)
Definition call_toLowerCase (v : value) : outcome string :=
  match v with
  | VStr s => Ret (toLowerCase s)
  | _ => Throw TypeError
  end.

(** [parseInt(v)] with no radix argument. *)
Definition parseInt (v : value) : outcome jsnum :=
  inputString ← ToString v; Ret (parseInt_string inputString).

End Coercions.

(** ** Weather codes, descriptions and icons *)

(** What [descriptions[code]] can evaluate to besides a text of the table: a
    member that every object inherits from Object.prototype. *)
Inductive description_value : Type :=
| Text (s : string)
| ObjectPrototypeMember (key : string).

(** The object literal [descriptions] of [getWeatherDescription]; its keys
    are written as numeric literals. *)
Definition descriptions : list (Z * string) :=
  [ (0, "clear sky"); (1, "mainly clear"); (2, "partly cloudy"); (3, "overcast");
    (45, "fog"); (48, "depositing rime fog");
    (51, "light drizzle"); (53, "moderate drizzle"); (55, "dense drizzle");
    (61, "slight rain"); (63, "moderate rain"); (65, "heavy rain");
    (71, "slight snow"); (73, "moderate snow"); (75, "heavy snow");
    (95, "thunderstorm"); (96, "thunderstorm with hail");
    (99, "thunderstorm with heavy hail") ].

(** The property key a numeric literal of the table stands for. *)
Definition property_key (z : Z) : string := NilZero.string_of_int (Z.to_int z).

Definition Object_prototype_keys : list string :=
  [ "constructor"; "hasOwnProperty"; "isPrototypeOf"; "propertyIsEnumerable";
    "toLocaleString"; "toString"; "valueOf"; "__proto__";
    "__defineGetter__"; "__defineSetter__"; "__lookupGetter__"; "__lookupSetter__" ].

Section Codes.
Context `{Runtime}.

(** [descriptions[code]]; [None] is [undefined]. A number finds the entry
    whose key is that number (Number::toString is injective); any other
    value is looked up under its [ToString]. *)
Definition descriptions_at (code : value) : outcome (option description_value) :=
  match code with
  | VNum n =>
      Ret (match JsNum.to_integer n with
           | Some z => Text <$> (snd <$> List.find (fun e => Z.eqb (fst e) z) descriptions)
           | None => None
           end)
  | _ =>
      key ← ToString code;
      Ret (match List.find (fun e => String.eqb (property_key (fst e)) key) descriptions with
           | Some e => Some (Text (snd e))
           | None =>
               if List.existsb (String.eqb key) Object_prototype_keys
               then Some (ObjectPrototypeMember key) else None
           end)
  end.

(** Every entry of the table and every inherited member is truthy, so
    [|| 'clear sky'] applies exactly when the key is absent. *)
Definition getWeatherDescription (code : value) : outcome description_value :=
  found ← descriptions_at code;
  Ret (default (Text "clear sky") found).

(** [code === k] for a numeric literal [k] *)
Definition strict_equals (code : value) (k : Z) : bool :=
  match code with
  | VNum n => JsNum.eqb n (of_Z k)
  | _ => false
  end.

Definition getWeatherIconFromCode (code : value) : outcome string :=
  if strict_equals code 0 then Ret "01d" else
  n ← ToNumber code;
  if JsNum.leb n (of_Z 3) then Ret "02d"
  else if JsNum.geb n (of_Z 45) && JsNum.leb n (of_Z 48) then Ret "50d"
  else if JsNum.geb n (of_Z 51) && JsNum.leb n (of_Z 55) then Ret "09d"
  else if JsNum.geb n (of_Z 61) && JsNum.leb n (of_Z 65) then Ret "10d"
  else if JsNum.geb n (of_Z 71) && JsNum.leb n (of_Z 75) then Ret "13d"
  else if JsNum.geb n (of_Z 95) then Ret "11d"
  else Ret "01d".

End Codes.

Definition getWeatherIconFromDescription (description : string) : string :=
  let desc := toLowerCase description in
  if includes desc "clear" || includes desc "sunny" then "01d"
  else if includes desc "cloud" then "03d"
  else if includes desc "rain" || includes desc "drizzle" then "10d"
  else if includes desc "thunder" then "11d"
  else if includes desc "snow" then "13d"
  else if includes desc "mist" || includes desc "fog" then "50d"
  else "01d".

(** ** Reports *)

(** The object every adapter builds:
    [{ name, main: { temp, humidity }, weather: [{ description, icon }] }]. *)
Record main_t : Type := { temp : jsnum; humidity : value }.
Record weather_t : Type := { description : description_value; icon : string }.
Record report : Type := { name : string; main : main_t; weather : list weather_t }.

(** ** The network *)

(** The requests the adapters send, by endpoint and by the texts spliced into
    the URL. *)
Inductive request : Type :=
| WeatherAPI_current (q : string)
| OpenMeteo_search (name : string)
| OpenMeteo_forecast (latitude longitude : string)
| Wttr_j1 (city : string).

(** What the network does with a request. [fetch] rejects, or never settles,
    or resolves with a response that has its [ok] flag. Reading the body of
    the response is a second promise, that of [response.json()]: the body
    arrives in full and is JSON or not ([None], and [response.json()] rejects
    with a SyntaxError), or the read fails with an error before the end of
    the body, or the body never ends. *)
Inductive reply : Type :=
| Unreachable
| Silent
| Response (ok : bool) (body : option value)
| Broken (ok : bool) (e : error)
| Stalled (ok : bool).

(** An asynchronous call: how its promise settles and the requests it sent. *)
Record async (A : Type) : Type := Async { settled : outcome A; requests : list request }.
Arguments Async {A} settled requests.
Arguments settled {A} a.
Arguments requests {A} a.

Definition abind {A B} (m : async A) (f : A -> async B) : async B :=
  match settled m with
  | Ret a => let next := f a in Async (settled next) (requests m ++ requests next)
  | Throw e => Async (Throw e) (requests m)
  | Never => Async Never (requests m)
  end.

#[global] Instance async_bind : MBind async := fun A B f m => abind m f.

(** A synchronous computation inside an async function: a throw rejects the
    promise. *)
Definition sync {A} (o : outcome A) : async A := Async o [].

Definition throw {A} (e : error) : async A := Async (Throw e) [].

(** [await fetch(url)]: the response is its [ok] flag with the way the
    promise of its [json()] settles. *)
Definition fetch (net : request -> reply) (r : request) : async (bool * outcome value) :=
  Async (match net r with
         | Unreachable => Throw NetworkError
         | Silent => Never
         | Response ok (Some v) => Ret (ok, Ret v)
         | Response ok None => Ret (ok, Throw SyntaxError)
         | Broken ok e => Ret (ok, Throw e)
         | Stalled ok => Ret (ok, Never)
         end) [r].

(** [await response.json()] *)
Definition json (response : bool * outcome value) : async value :=
  Async (snd response) [].

(** ** The adapters *)

Section Adapters.
Context `{Runtime} (net : request -> reply).

Definition fetchFromWeatherAPI (city : string) : async report :=
  response ← fetch net (WeatherAPI_current city);
  if negb (fst response) then throw (Error "WeatherAPI failed") else
  data ← json response;
  sync (
    location_name ← path data ["location"; "name"] ≫= ToString;
    location_country ← path data ["location"; "country"] ≫= ToString;
    temp_f ← path data ["current"; "temp_f"] ≫= ToNumber;
    current_humidity ← path data ["current"; "humidity"];
    text ← path data ["current"; "condition"; "text"] ≫= call_toLowerCase;
    text' ← path data ["current"; "condition"; "text"] ≫= call_toLowerCase;
    mret {| name := location_name ++ ", " ++ location_country;
            main := {| temp := JsNum.round temp_f; humidity := current_humidity |};
            weather := [ {| description := Text text;
                            icon := getWeatherIconFromDescription text' |} ] |}).

Definition fetchFromOpenMeteo (city : string) : async report :=
  geoResponse ← fetch net (OpenMeteo_search city);
  if negb (fst geoResponse) then throw (Error "Geocoding failed") else
  geoData ← json geoResponse;
  results ← sync (get geoData "results");
  if negb (ToBoolean results) then throw (Error "City not found") else
  length ← sync (path geoData ["results"; "length"]);
  if strict_equals length 0 then throw (Error "City not found") else
  first ← sync (path geoData ["results"; "0"]);
  latitude ← sync (get first "latitude");
  longitude ← sync (get first "longitude");
  name_ ← sync (get first "name");
  country ← sync (get first "country");
  lat ← sync (ToString latitude);
  lon ← sync (ToString longitude);
  weatherResponse ← fetch net (OpenMeteo_forecast lat lon);
  if negb (fst weatherResponse) then throw (Error "Weather fetch failed") else
  weatherData ← json weatherResponse;
  current ← sync (get weatherData "current_weather");
  sync (
    n ← ToString name_;
    c ← ToString country;
    temperature ← get current "temperature" ≫= ToNumber;
    text ← get current "weathercode" ≫= getWeatherDescription;
    icon_ ← get current "weathercode" ≫= getWeatherIconFromCode;
    mret {| name := n ++ ", " ++ c;
            main := {| temp := JsNum.round temperature; humidity := VNum (of_Z 65) |};
            weather := [ {| description := text; icon := icon_ |} ] |}).

Definition fetchFromWttr (city : string) : async report :=
  response ← fetch net (Wttr_j1 city);
  if negb (fst response) then throw (Error "Wttr failed") else
  data ← json response;
  current ← sync (path data ["current_condition"; "0"]);
  location ← sync (path data ["nearest_area"; "0"]);
  sync (
    areaName ← path location ["areaName"; "0"; "value"] ≫= ToString;
    country ← path location ["country"; "0"; "value"] ≫= ToString;
    temp_F ← get current "temp_F" ≫= parseInt;
    humidity_ ← get current "humidity" ≫= parseInt;
    text ← path current ["weatherDesc"; "0"; "value"] ≫= call_toLowerCase;
    text' ← path current ["weatherDesc"; "0"; "value"] ≫= call_toLowerCase;
    mret {| name := areaName ++ ", " ++ country;
            main := {| temp := JsNum.round temp_F; humidity := VNum humidity_ |};
            weather := [ {| description := Text text;
                            icon := getWeatherIconFromDescription text' |} ] |}).

End Adapters.

(** ** The orchestrator and its cache *)

Record cache_entry : Type := { data : report; timestamp : Z }.

Definition CACHE_DURATION : Z := 10 * 60 * 1000.

(** The order in which the three promises of [fetchWeatherData] settle, by
    their index in the array passed to [Promise.any]. *)
Inductive settle_order : Type := ABC | ACB | BAC | BCA | CAB | CBA.

Definition indices (o : settle_order) : list nat :=
  match o with
  | ABC => [0; 1; 2] | ACB => [0; 2; 1]
  | BAC => [1; 0; 2] | BCA => [1; 2; 0]
  | CAB => [2; 0; 1] | CBA => [2; 1; 0]
  end%nat.

Definition fulfilled {A} (o : outcome A) : option A :=
  match o with
  | Ret a => Some a
  | _ => None
  end.

Definition rejected {A} (o : outcome A) : option error :=
  match o with
  | Throw e => Some e
  | _ => None
  end.

(** The first promise, in settle order, that is fulfilled. *)
Fixpoint first_fulfilled {A} (order : list nat) (promises : list (outcome A)) : option A :=
  match order with
  | [] => None
  | i :: rest =>
      match promises !! i ≫= fulfilled with
      | Some a => Some a
      | None => first_fulfilled rest promises
      end
  end.

(** [Promise.any]: fulfilled with the value of the first promise to be
    fulfilled; rejected with an AggregateError once all are rejected; pending
    for ever otherwise. *)
Definition Promise_any {A} (order : list nat) (promises : list (outcome A)) : outcome A :=
  match first_fulfilled order promises with
  | Some a => Ret a
  | None =>
      match mapM rejected promises with
      | Some errors => Throw (AggregateError errors)
      | None => Never
      end
  end.

(** What one call runs in: the network, the settle order of the adapters'
    promises, and what [Date.now()] gives at the cache test and when the call
    resumes after the await. *)
Record world : Type := {
  net : request -> reply;
  order : settle_order;
  now_on_call : Z;
  now_on_resume : Z
}.

(** What one call leaves: how its promise settles, the cache afterwards and
    the requests sent (listed adapter by adapter, not in the order in which
    they interleave). No other call touches the cache in between. *)
Record run : Type := {
  returned : outcome report;
  WEATHER_CACHE : gmap string cache_entry;
  sent : list request
}.

Definition cacheKey (city : string) : string := trim (toLowerCase city).

Section Orchestrator.
Context `{Runtime}.

(** The array [promises] of [fetchWeatherData]: the three adapters, started
    on the query as it was given. *)
Definition promises (net : request -> reply) (city : string) : list (async report) :=
  [ fetchFromWeatherAPI net city;
    fetchFromOpenMeteo net city;
    fetchFromWttr net city ].

(** The part of [fetchWeatherData] after the cache test: the three adapters
    are started and the first success is cached and returned. *)
Definition race (w : world) (cache : gmap string cache_entry) (city : string) : run :=
  let cacheKey := cacheKey city in
  let promises := promises (net w) city in
  let sent := concat (requests <$> promises) in
  match Promise_any (indices (order w)) (settled <$> promises) with
  | Ret data =>
      {| returned := Ret data;
         WEATHER_CACHE := <[ cacheKey := {| data := data; timestamp := now_on_resume w |} ]> cache;
         sent := sent |}
  | Throw _ =>
      {| returned := Throw (Error "Unable to fetch weather data from any source");
         WEATHER_CACHE := cache;
         sent := sent |}
  | Never =>
      {| returned := Never; WEATHER_CACHE := cache; sent := sent |}
  end.

Definition fetchWeatherData (w : world) (cache : gmap string cache_entry) (city : string) : run :=
  let cacheKey := cacheKey city in
  match cache !! cacheKey with
  | Some cached =>
      if Z.ltb (now_on_call w - timestamp cached) CACHE_DURATION
      then {| returned := Ret (data cached); WEATHER_CACHE := cache; sent := [] |}
      else race w cache city
  | None => race w cache city
  end.

End Orchestrator.

(** ** The rules as the specification words them *)

(** The codes of the description table. *)
Definition listed_codes : list Z :=
  [0; 1; 2; 3; 45; 48; 51; 53; 55; 61; 63; 65; 71; 73; 75; 95; 96; 99].

(** [lo <= n <= hi] as JavaScript compares numbers. *)
Definition within (lo hi : Z) (n : jsnum) : bool :=
  JsNum.geb n (of_Z lo) && JsNum.leb n (of_Z hi).

(** The icon bucket rule in the words of the specification: the second
    bucket is the closed interval from 1 to 3. *)
Definition icon_bucket_rule (n : jsnum) : string :=
  if JsNum.eqb n (of_Z 0) then "01d"
  else if within 1 3 n then "02d"
  else if within 45 48 n then "50d"
  else if within 51 55 n then "09d"
  else if within 61 65 n then "10d"
  else if within 71 75 n then "13d"
  else if JsNum.geb n (of_Z 95) then "11d"
  else "01d".

(** The keyword rule in the words of the specification: the rows are tried
    in order on the lower-cased description and the first row with a keyword
    that occurs in it gives the icon. *)
Definition keyword_rows : list (list string * string) :=
  [ (["clear"; "sunny"], "01d");
    (["cloud"], "03d");
    (["rain"; "drizzle"], "10d");
    (["thunder"], "11d");
    (["snow"], "13d");
    (["mist"; "fog"], "50d") ].

(** [keyword] occurs in [description], whatever the case of its letters. *)
Definition contains (description keyword : string) : Prop :=
  ∃ before after, toLowerCase description = before ++ keyword ++ after.

Inductive first_match (description : string) : list (list string * string) → string → Prop :=
| no_row : first_match description [] "01d"
| row_matches keywords icon rows keyword :
    In keyword keywords → contains description keyword →
    first_match description ((keywords, icon) :: rows) icon
| row_skipped keywords icon rows result :
    (∀ keyword, In keyword keywords → ¬ contains description keyword) →
    first_match description rows result →
    first_match description ((keywords, icon) :: rows) result.

(** The same rule as a function. *)
Fixpoint first_match_icon (description : string) (rows : list (list string * string)) : string :=
  match rows with
  | [] => "01d"
  | (keywords, icon) :: rest =>
      if List.existsb (includes (toLowerCase description)) keywords then icon
      else first_match_icon description rest
  end.

(** Promise [i] settles before promise [j]. *)
Definition settles_before (o : settle_order) (i j : nat) : Prop :=
  ∃ l1 l2 l3, indices o = (l1 ++ i :: l2 ++ j :: l3)%list.

(** The cache has no entry for the query that is younger than the staleness
    duration when the call tests it: the adapters are run. *)
Definition stale_or_absent (w : world) (cache : gmap string cache_entry) (city : string) : Prop :=
  ∀ cached, cache !! trim (toLowerCase city) = Some cached →
            CACHE_DURATION ≤ now_on_call w - timestamp cached.

(** [undefined] and [null]: reading a property of either throws. *)
Definition nullish (v : value) : bool :=
  match v with
  | VUndefined | VNull => true
  | _ => false
  end.

(** The objects of a body that an adapter reads a property of, each as the
    path that leads to it from the body; the empty path is the body itself. *)
Definition WeatherAPI_objects : list (list string) :=
  [ []; ["location"]; ["current"]; ["current"; "condition"] ].

Definition OpenMeteo_forecast_objects : list (list string) :=
  [ []; ["current_weather"] ].

Definition Wttr_objects : list (list string) :=
  [ [];
    ["current_condition"]; ["current_condition"; "0"];
    ["current_condition"; "0"; "weatherDesc"];
    ["current_condition"; "0"; "weatherDesc"; "0"];
    ["nearest_area"]; ["nearest_area"; "0"];
    ["nearest_area"; "0"; "areaName"]; ["nearest_area"; "0"; "areaName"; "0"];
    ["nearest_area"; "0"; "country"]; ["nearest_area"; "0"; "country"; "0"] ].

(** A synchronous computation that returns, or else throws a TypeError. *)
Definition returns_or_TypeError {A} (o : outcome A) : Prop :=
  (∃ a, o = Ret a) ∨ o = Throw TypeError.

(** ** Fixtures for the closed examples *)

(** A runtime for the closed examples: it prints an integer in decimal, as
    ECMAScript does, and reads such a text back as that integer; any other
    text reads as NaN. The examples reach these conversions with integers
    only, or not at all. *)
Definition integer_runtime : Runtime :=
  let print (n : jsnum) : string :=
    match n with
    | Num q => property_key (Qfloor q)
    | NaN => "NaN"
    | PosInf => "Infinity"
    | NegInf => "-Infinity"
    end in
  {| Number_toString := print;
     StringToNumber s :=
       let n := parseInt_string s in
       if String.eqb (print n) s then n else NaN |}.

(** A network on which every request fails. *)
Definition offline : request → reply := λ _, Unreachable.

Definition offline_world : world :=
  {| net := offline; order := ABC; now_on_call := 1000; now_on_resume := 1250 |}.

(** A body of the shape wttr.in answers with [format=j1]. *)
Definition wttr_body (areaName country temp_F humidity weatherDesc : string) : value :=
  VObj [ ("current_condition",
          VArr [ VObj [ ("temp_F", VStr temp_F);
                        ("humidity", VStr humidity);
                        ("weatherDesc", VArr [ VObj [ ("value", VStr weatherDesc) ] ]) ] ]);
         ("nearest_area",
          VArr [ VObj [ ("areaName", VArr [ VObj [ ("value", VStr areaName) ] ]);
                        ("country", VArr [ VObj [ ("value", VStr country) ] ]) ] ]) ].

(** A network on which only wttr.in answers, with the given body. *)
Definition only_wttr (body : value) : request → reply :=
  λ r, match r with
       | Wttr_j1 _ => Response true (Some body)
       | _ => Response false None
       end.

Definition paris_body : value := wttr_body "Paris" "France" "72" "40" "Sunny".

Definition paris_report : report :=
  {| name := "Paris, France";
     main := {| temp := of_Z 72; humidity := VNum (of_Z 40) |};
     weather := [ {| description := Text "sunny"; icon := "01d" |} ] |}.

Definition wttr_world : world :=
  {| net := only_wttr paris_body; order := BCA; now_on_call := 1000; now_on_resume := 1250 |}.

(** ** The page *)

(** [capitalizeWords]: [str.replace(/\b\w/g, char => char.toUpperCase())].
    [\w] matches the ASCII letters, the digits and the underscore; [\b\w]
    matches such a character when the one before it is none (or when it is
    the first), and the match is replaced by its upper case. *)
Definition is_word (c : ascii) : bool :=
  let n := N_of_ascii c in
  ((48 <=? n) && (n <=? 57) || (65 <=? n) && (n <=? 90) || (n =? 95)
   || (97 <=? n) && (n <=? 122))%N.

(** [char.toUpperCase()] for a character that [\w] matches. *)
Definition upper_word (c : ascii) : ascii :=
  let n := N_of_ascii c in
  if ((97 <=? n) && (n <=? 122))%N then ascii_of_N (n - 32) else c.

Fixpoint capitalize (after_word : bool) (str : string) : string :=
  match str with
  | EmptyString => EmptyString
  | String c rest =>
      String (if is_word c && negb after_word then upper_word c else c)
             (capitalize (is_word c) rest)
  end.

Definition capitalizeWords (str : string) : string := capitalize false str.

(** A text shown on the page: a string of the model, a string given by its
    UTF-16 code units (the glyphs), or the text the engine gives to the
    member [key] of Object.prototype. *)
Inductive text : Type :=
| Plain (s : string)
| CodeUnits (units : list N)
| NativeText (key : string).

(** The object literal [weatherIcons]. *)
Definition weatherIcons : list (string * list N) :=
  [ ("01d", [0x2600; 0xFE0F]); ("01n", [0xD83C; 0xDF19]);
    ("02d", [0xD83C; 0xDF24; 0xFE0F]); ("02n", [0x2601; 0xFE0F]);
    ("03d", [0x26C5]); ("03n", [0x2601; 0xFE0F]);
    ("04d", [0x2601; 0xFE0F]); ("04n", [0x2601; 0xFE0F]);
    ("09d", [0xD83C; 0xDF26; 0xFE0F]); ("09n", [0xD83C; 0xDF27; 0xFE0F]);
    ("10d", [0xD83C; 0xDF26; 0xFE0F]); ("10n", [0xD83C; 0xDF27; 0xFE0F]);
    ("11d", [0x26C8; 0xFE0F]); ("11n", [0x26C8; 0xFE0F]);
    ("13d", [0x2744; 0xFE0F]); ("13n", [0x2744; 0xFE0F]);
    ("50d", [0xD83C; 0xDF2B; 0xFE0F]); ("50n", [0xD83C; 0xDF2B; 0xFE0F]) ]%N.

(** [weatherIcons[iconCode]]; [None] is [undefined]. *)
Definition weatherIcons_at (iconCode : string) : option text :=
  match List.find (λ e, String.eqb (fst e) iconCode) weatherIcons with
  | Some e => Some (CodeUnits (snd e))
  | None =>
      if List.existsb (String.eqb iconCode) Object_prototype_keys
      then Some (NativeText iconCode) else None
  end.

(** The elements the script looks up by id. *)
Module El.
Inductive id : Type :=
| cityName | temperature | humidity | condition | weatherIcon | message.
End El.

#[global] Instance El_id_eq_dec : EqDecision El.id.
Proof. solve_decision. Defined.

Record element : Type := { textContent : text; display : string }.

(** The state of the page the script reads and writes: the input field, the
    button, the class list of the card, the six elements, the timers set and
    what went to [console.error]. *)
Record page : Type := {
  cityInput_value : string;
  searchBtn_disabled : bool;
  searchBtn_textContent : string;
  weatherCard_classList : gset string;
  elements : El.id → element;
  timeouts : list Z;
  console : list error
}.

Definition with_elements (f : (El.id → element) → El.id → element) (p : page) : page :=
  {| cityInput_value := cityInput_value p;
     searchBtn_disabled := searchBtn_disabled p;
     searchBtn_textContent := searchBtn_textContent p;
     weatherCard_classList := weatherCard_classList p;
     elements := f (elements p);
     timeouts := timeouts p;
     console := console p |}.

(** [el.textContent = t] *)
Definition set_textContent (i : El.id) (t : text) : page → page :=
  with_elements (λ els, <[ i := {| textContent := t; display := display (els i) |} ]> els).

(** [el.style.display = d] *)
Definition set_display (i : El.id) (d : string) : page → page :=
  with_elements (λ els, <[ i := {| textContent := textContent (els i); display := d |} ]> els).

Definition with_classList (f : gset string → gset string) (p : page) : page :=
  {| cityInput_value := cityInput_value p;
     searchBtn_disabled := searchBtn_disabled p;
     searchBtn_textContent := searchBtn_textContent p;
     weatherCard_classList := f (weatherCard_classList p);
     elements := elements p;
     timeouts := timeouts p;
     console := console p |}.

(** [searchBtn.disabled = d; searchBtn.textContent = t] *)
Definition set_searchBtn (d : bool) (t : string) (p : page) : page :=
  {| cityInput_value := cityInput_value p;
     searchBtn_disabled := d;
     searchBtn_textContent := t;
     weatherCard_classList := weatherCard_classList p;
     elements := elements p;
     timeouts := timeouts p;
     console := console p |}.

(** [cityInput.value = v] *)
Definition set_cityInput_value (v : string) (p : page) : page :=
  {| cityInput_value := v;
     searchBtn_disabled := searchBtn_disabled p;
     searchBtn_textContent := searchBtn_textContent p;
     weatherCard_classList := weatherCard_classList p;
     elements := elements p;
     timeouts := timeouts p;
     console := console p |}.

(** [setTimeout(..., delay)] *)
Definition setTimeout (delay : Z) (p : page) : page :=
  {| cityInput_value := cityInput_value p;
     searchBtn_disabled := searchBtn_disabled p;
     searchBtn_textContent := searchBtn_textContent p;
     weatherCard_classList := weatherCard_classList p;
     elements := elements p;
     timeouts := (timeouts p ++ [delay])%list;
     console := console p |}.

(** [console.error(..., e)] *)
Definition console_error (e : error) (p : page) : page :=
  {| cityInput_value := cityInput_value p;
     searchBtn_disabled := searchBtn_disabled p;
     searchBtn_textContent := searchBtn_textContent p;
     weatherCard_classList := weatherCard_classList p;
     elements := elements p;
     timeouts := timeouts p;
     console := (console p ++ [e])%list |}.

Definition hideWeatherElements (p : page) : page :=
  let p := set_display El.cityName "none" p in
  let p := set_display El.temperature "none" p in
  let p := set_display El.humidity "none" p in
  let p := set_display El.condition "none" p in
  set_display El.weatherIcon "none" p.

Definition showMessage (msg : string) (p : page) : page :=
  let p := set_textContent El.message (Plain msg) p in
  let p := set_display El.message "block" p in
  hideWeatherElements p.

Definition showLoading (p : page) : page :=
  let p := with_classList (λ c, c ∪ {[ "loading" ]}) p in
  let p := set_textContent El.message (Plain "Fetching weather data...") p in
  let p := set_display El.message "block" p in
  let p := set_searchBtn true "Loading..." p in
  hideWeatherElements p.


Definition showError (errorMessage : string) (p : page) : page :=
  let p := with_classList (λ c, c ∖ {[ "loading" ]}) p in
  let p := with_classList (λ c, c ∪ {[ "error" ]}) p in
  let p := set_textContent El.message (Plain errorMessage) p in
  let p := set_display El.message "block" p in
  let p := set_searchBtn false "Get Weather" p in
  let p := hideWeatherElements p in
  setTimeout 3000 p.

Definition init (p : page) : page :=
  showMessage "Please enter a city to get weather information" (hideWeatherElements p).

(** The degree sign, U+00B0. *)
Definition degree : ascii := ascii_of_N 176.

Section Display.
Context `{Runtime}.

(** [displayWeatherData]: the page it leaves and whether it returned or
    threw. A throw leaves the assignments made before it. *)
Definition displayWeatherData (data : report) (p : page) : page * outcome unit :=
  let p := set_display El.message "none" p in
  let p := set_textContent El.cityName (Plain (name data)) p in
  let p := set_display El.cityName "block" p in
  let p := set_textContent El.temperature
             (Plain (Number_toString (JsNum.round (temp (main data))) ++ String degree "F")) p in
  let p := set_display El.temperature "block" p in
  match ToString (humidity (main data)) with
  | Throw e => (p, Throw e)
  | Never => (p, Never)
  | Ret percent =>
      let p := set_textContent El.humidity (Plain ("Humidity: " ++ percent ++ "%")) p in
      let p := set_display El.humidity "block" p in
      match weather data with
      | [] => (p, Throw TypeError)
      | first :: _ =>
          match description first with
          | ObjectPrototypeMember _ => (p, Throw TypeError)
          | Text str =>
              let p := set_textContent El.condition (Plain (capitalizeWords str)) p in
              let p := set_display El.condition "block" p in
              let iconCode :=
                if String.eqb (icon first) "" then getWeatherIconFromDescription str
                else icon first in
              let glyph := default (CodeUnits [0xD83C; 0xDF24; 0xFE0F]%N)
                             (weatherIcons_at iconCode) in
              let p := set_textContent El.weatherIcon glyph p in
              let p := set_display El.weatherIcon "block" p in
              let p := with_classList (λ c, c ∖ {[ "loading" ]} ∖ {[ "error" ]}) p in
              let p := set_searchBtn false "Get Weather" p in
              (set_cityInput_value "" p, Ret tt)
          end
      end
  end.

(** What one search leaves: the page, the cache, the requests sent, and
    whether [handleSearch] came to its end. *)
Record search : Type := {
  shown : page;
  kept : gmap string cache_entry;
  asked : list request;
  ended : bool
}.

Definition handleSearch (w : world) (cache : gmap string cache_entry) (p : page) : search :=
  let city := trim (cityInput_value p) in
  if String.eqb city "" then
    {| shown := showMessage "Please enter a city name" p;
       kept := cache; asked := []; ended := true |}
  else
    let p := showLoading p in
    let fetched := fetchWeatherData w cache city in
    let failed (p : page) (e : error) :=
      let p := showError "City not found or network error. Please try again." p in
      {| shown := console_error e p;
         kept := WEATHER_CACHE fetched; asked := sent fetched; ended := true |} in
    match returned fetched with
    | Ret weatherData =>
        match displayWeatherData weatherData p with
        | (p, Ret _) =>
            {| shown := p; kept := WEATHER_CACHE fetched; asked := sent fetched;
               ended := true |}
        | (p, Throw e) => failed p e
        | (p, Never) =>
            {| shown := p; kept := WEATHER_CACHE fetched; asked := sent fetched;
               ended := false |}
        end
    | Throw e => failed p e
    | Never =>
        {| shown := p; kept := WEATHER_CACHE fetched; asked := sent fetched;
           ended := false |}
    end.

End Display.

(** A page with nothing on it, and the page [init] makes of it once
    " Paris " is typed in. *)
Definition blank_page : page :=
  {| cityInput_value := "";
     searchBtn_disabled := false;
     searchBtn_textContent := "Get Weather";
     weatherCard_classList := ∅;
     elements := λ _, {| textContent := Plain ""; display := "" |};
     timeouts := [];
     console := [] |}.

Definition paris_page : page := set_cityInput_value " Paris " (init blank_page).

(** The five elements that show a report. *)
Definition weather_elements : list El.id :=
  [El.cityName; El.temperature; El.humidity; El.condition; El.weatherIcon].

(** The page shows a report: the message is hidden and the five elements
    are displayed. *)
Definition report_shown (p : page) : Prop :=
  display (elements p El.message) = "none" ∧
  ∀ i, In i weather_elements → display (elements p i) = "block".

(** The page shows the message [msg] and no report. *)
Definition message_shown (msg : string) (p : page) : Prop :=
  textContent (elements p El.message) = Plain msg ∧
  display (elements p El.message) = "block" ∧
  ∀ i, In i weather_elements → display (elements p i) = "none".

(** A network on which only Open-Meteo answers: Paris at 48, 2 and a
    forecast of 71.5 degrees with weather code 61. *)
Definition only_open_meteo : request → reply :=
  λ r, match r with
       | OpenMeteo_search _ =>
           Response true (Some (VObj [ ("results",
             VArr [ VObj [ ("latitude", VNum (of_Z 48)); ("longitude", VNum (of_Z 2));
                           ("name", VStr "Paris"); ("country", VStr "France") ] ]) ]))
       | OpenMeteo_forecast "48" "2" =>
           Response true (Some (VObj [ ("current_weather",
             VObj [ ("temperature", VNum (Num (143 # 2)));
                    ("weathercode", VNum (of_Z 61)) ]) ]))
       | _ => Response false None
       end.

Definition open_meteo_report : report :=
  {| name := "Paris, France";
     main := {| temp := of_Z 72; humidity := VNum (of_Z 65) |};
     weather := [ {| description := Text "slight rain"; icon := "10d" |} ] |}.


(** A network that never answers. *)
Definition silent_world : world :=
  {| net := λ _, Silent; order := ABC; now_on_call := 1000; now_on_resume := 1250 |}.

(** A network that answers every request with a success status and a body
    that never ends. *)
Definition stalled_world : world :=
  {| net := λ _, Stalled true; order := ABC; now_on_call := 1000; now_on_resume := 1250 |}.

(** * Properties *)

(** ** Strings *)

Lemma startsWith_app (s search : string) :
  startsWith s search = true ↔ ∃ r, s = search ++ r.
Proof.
  revert s. induction search as [|c p IH]; intros s; simpl.
  - split; [exists s; reflexivity | reflexivity].
  - destruct s as [|d s].
    + split; [discriminate | intros [r Hr]; discriminate].
    + rewrite andb_true_iff, IH, Ascii.eqb_eq.
      split; [intros [-> [r ->]]; eauto | intros [r Hr]; simpl in Hr].
      injection Hr as -> ->. eauto.
Qed.

(** [includes] finds exactly the substrings. *)
Lemma includes_substring (s search : string) :
  includes s search = true ↔ ∃ before after, s = before ++ search ++ after.
Proof.
  induction s as [|c s IH]; simpl.
  - rewrite orb_false_r, startsWith_app. split.
    + intros [r Hr]. exists "", r. exact Hr.
    + intros ([|d before] & after & Hs); [eauto | discriminate].
  - rewrite orb_true_iff, startsWith_app, IH. split.
    + intros [[r Hr] | (before & after & Hs)].
      * exists "", r. exact Hr.
      * exists (String c before), after. rewrite Hs. reflexivity.
    + intros ([|d before] & after & Hs).
      * left. eauto.
      * right. exists before, after. simpl in Hs. now injection Hs.
Qed.

Lemma includes_contains (description keyword : string) :
  includes (toLowerCase description) keyword = true ↔ contains description keyword.
Proof. apply includes_substring. Qed.

Lemma not_includes_contains (description keyword : string) :
  includes (toLowerCase description) keyword = false ↔ ¬ contains description keyword.
Proof. rewrite <- includes_contains. destruct (includes _ _); intuition congruence. Qed.

Lemma lower_unit_idempotent (c : ascii) : lower_unit (lower_unit c) = lower_unit c.
Proof. destruct c as [[] [] [] [] [] [] [] []]; reflexivity. Qed.

Lemma toLowerCase_idempotent (s : string) : toLowerCase (toLowerCase s) = toLowerCase s.
Proof.
  induction s as [|c s IH]; simpl; [reflexivity|].
  now rewrite lower_unit_idempotent, IH.
Qed.

(** ** The keyword rule *)

Lemma first_match_iff (description : string) rows (icon : string) :
  first_match description rows icon ↔ icon = first_match_icon description rows.
Proof.
  split.
  - induction 1 as [|keywords icon rows keyword Hin Hc|keywords icon rows result Hno _ IH]; simpl.
    + reflexivity.
    + replace (existsb _ keywords) with true; [reflexivity|].
      symmetry. apply existsb_exists. exists keyword.
      split; [exact Hin | now apply includes_contains].
    + destruct (existsb _ keywords) eqn:E; [|exact IH].
      apply existsb_exists in E as (keyword & Hin & Hc).
      apply includes_contains in Hc. now destruct (Hno keyword Hin).
  - revert icon. induction rows as [|[keywords icon'] rows IH]; intros icon ->; simpl.
    + constructor.
    + destruct (existsb _ keywords) eqn:E.
      * apply existsb_exists in E as (keyword & Hin & Hc).
        apply row_matches with keyword; [exact Hin | now apply includes_contains].
      * apply row_skipped; [|now apply IH].
        intros keyword Hin Hc. apply includes_contains in Hc.
        assert (existsb (includes (toLowerCase description)) keywords = true) as E'
          by (apply existsb_exists; eauto).
        congruence.
Qed.

Lemma getWeatherIconFromDescription_rows (description : string) :
  getWeatherIconFromDescription description = first_match_icon description keyword_rows.
Proof.
  unfold getWeatherIconFromDescription, keyword_rows. simpl.
  now rewrite !orb_false_r.
Qed.

(** C7, as the code has it. The icon of a description is the one of the first
    row of the keyword table, in its fixed order, that has a keyword
    occurring in the description, letters compared without their case, and
    the clear-day icon when no row has one; two descriptions that differ in
    case only get the same icon, and a description gets the icon of its
    lower-cased form; "light thunderstorms with hail" gets the thunderstorm
    icon; a description with "cloud" and "rain" but neither "clear" nor
    "sunny" gets the cloud icon. *)
Theorem keyword_icon_first_match :
  (∀ description icon,
     first_match description keyword_rows icon ↔
     icon = getWeatherIconFromDescription description) ∧
  (∀ d1 d2, toLowerCase d1 = toLowerCase d2 →
     getWeatherIconFromDescription d1 = getWeatherIconFromDescription d2) ∧
  (∀ description,
     getWeatherIconFromDescription (toLowerCase description) =
     getWeatherIconFromDescription description) ∧
  getWeatherIconFromDescription "light thunderstorms with hail" = "11d" ∧
  (∀ description,
     contains description "cloud" → contains description "rain" →
     ¬ contains description "clear" → ¬ contains description "sunny" →
     getWeatherIconFromDescription description = "03d").
Proof.
  split; [|split; [|split; [|split]]].
  - intros description icon.
    now rewrite getWeatherIconFromDescription_rows, first_match_iff.
  - intros d1 d2 Heq. unfold getWeatherIconFromDescription. now rewrite Heq.
  - intros description. unfold getWeatherIconFromDescription.
    now rewrite toLowerCase_idempotent.
  - reflexivity.
  - intros description Hcloud _ Hclear Hsunny.
    apply includes_contains in Hcloud.
    apply not_includes_contains in Hclear, Hsunny.
    unfold getWeatherIconFromDescription. now rewrite Hclear, Hsunny, Hcloud.
Qed.

Lemma keyword_icon_first_match_witness :
  getWeatherIconFromDescription "Scattered clouds, light rain" = "03d".
Proof.
  apply (proj2 (proj2 (proj2 (proj2 keyword_icon_first_match)))).
  - apply includes_contains. reflexivity.
  - apply includes_contains. reflexivity.
  - apply not_includes_contains. reflexivity.
  - apply not_includes_contains. reflexivity.
Defined.

(** C7 as stated fails: a description with "cloud" and "rain" that also has
    "sunny" gets the clear-day icon, because that row is tried first. *)
Lemma cloud_and_rain_not_cloud_icon :
  contains "sunny spells, then cloud and rain" "cloud" ∧
  contains "sunny spells, then cloud and rain" "rain" ∧
  getWeatherIconFromDescription "sunny spells, then cloud and rain" = "01d" ∧
  getWeatherIconFromDescription "sunny spells, then cloud and rain" ≠ "03d".
Proof.
  repeat split; try (apply includes_contains; reflexivity).
  discriminate.
Qed.

(** ** Numbers *)

Ltac q_reflect :=
  repeat match goal with
    | H : Qle_bool _ _ = true |- _ => apply Qle_bool_iff in H
    | H : Qle_bool _ _ = false |- _ =>
        apply not_true_iff_false in H; rewrite Qle_bool_iff in H; apply Qnot_le_lt in H
    | H : Qeq_bool _ _ = true |- _ => apply Qeq_bool_iff in H
    | H : Qeq_bool _ _ = false |- _ => apply Qeq_bool_neq in H
    end.

Lemma to_integer_eqb (n : jsnum) (z : Z) :
  JsNum.to_integer n = Some z ↔ JsNum.eqb n (of_Z z) = true.
Proof.
  destruct n as [q| | |]; simpl; try (split; discriminate).
  split.
  - destruct (Qeq_bool q (inject_Z (Qfloor q))) eqn:E; [|discriminate].
    intros [= <-]. exact E.
  - intros E. apply Qeq_bool_iff in E.
    assert (Qfloor q = z) as Hz by (rewrite E; apply Qfloor_Z).
    rewrite Hz. apply Qeq_bool_iff in E. now rewrite E.
Qed.

Lemma to_integer_of_Z (z : Z) : JsNum.to_integer (of_Z z) = Some z.
Proof. apply to_integer_eqb. simpl. apply Qeq_bool_iff. reflexivity. Qed.

(** An integer of at most 53 bits is a Number. *)
Lemma Number_of_integer_safe (z : Z) :
  (Z.abs z < 2 ^ 53)%Z → Number_of_integer z = of_Z z.
Proof.
  intros Hz. unfold Number_of_integer. cbv zeta.
  assert (Z.log2 (Z.abs z) - 52 ≤ 0)%Z as He.
  { destruct (Z.eq_dec (Z.abs z) 0) as [->|Hne]; [simpl; lia|].
    assert (Z.log2 (Z.abs z) < 53)%Z by (apply Z.log2_lt_pow2; lia). lia. }
  destruct (Z.leb_spec (Z.log2 (Z.abs z) - 52) 0); [reflexivity|lia].
Qed.

(** Beyond 53 bits [parseInt] gives the nearest double, a tie going to the
    even mantissa, and an infinity from the first integer that rounds up to
    2^1024. *)
Example parseInt_string_nearest_double :
  parseInt_string "9007199254740993" = of_Z 9007199254740992 ∧
  parseInt_string "9007199254740995" = of_Z 9007199254740996 ∧
  parseInt_string "-9007199254740993" = of_Z (-9007199254740992) ∧
  parseInt_string "0x20000000000001" = of_Z 9007199254740992 ∧
  Number_of_integer (2 ^ 1024 - 2 ^ 970 - 1) = of_Z ((2 ^ 53 - 1) * 2 ^ 971) ∧
  Number_of_integer (2 ^ 1024 - 2 ^ 970) = PosInf ∧
  Number_of_integer (- 2 ^ 1024) = NegInf.
Proof. split_and!; vm_compute; reflexivity. Qed.

(** ** Adapter B: weather codes *)

Section CodeProperties.
Context `{Runtime}.

Lemma getWeatherDescription_number (n : jsnum) :
  getWeatherDescription (VNum n) =
  Ret (Text match JsNum.to_integer n with
            | Some z =>
                match List.find (λ e, Z.eqb (fst e) z) descriptions with
                | Some e => snd e
                | None => "clear sky"
                end
            | None => "clear sky"
            end).
Proof.
  unfold getWeatherDescription, descriptions_at.
  destruct (JsNum.to_integer n) as [z|]; [|reflexivity].
  generalize (List.find (λ e, Z.eqb (fst e) z) descriptions).
  intros [e|]; reflexivity.
Qed.

(** C4. On a number, [getWeatherDescription] gives the text of the table for
    each of the eighteen listed codes (also when the number is only equal to
    the code, whatever its representation) and "clear sky" for every number
    that is none of them (other integers, fractions, NaN, the infinities). *)
Theorem getWeatherDescription_table :
  ( getWeatherDescription (VNum (of_Z 0)) = Ret (Text "clear sky") ∧
    getWeatherDescription (VNum (of_Z 1)) = Ret (Text "mainly clear") ∧
    getWeatherDescription (VNum (of_Z 2)) = Ret (Text "partly cloudy") ∧
    getWeatherDescription (VNum (of_Z 3)) = Ret (Text "overcast") ∧
    getWeatherDescription (VNum (of_Z 45)) = Ret (Text "fog") ∧
    getWeatherDescription (VNum (of_Z 48)) = Ret (Text "depositing rime fog") ∧
    getWeatherDescription (VNum (of_Z 51)) = Ret (Text "light drizzle") ∧
    getWeatherDescription (VNum (of_Z 53)) = Ret (Text "moderate drizzle") ∧
    getWeatherDescription (VNum (of_Z 55)) = Ret (Text "dense drizzle") ∧
    getWeatherDescription (VNum (of_Z 61)) = Ret (Text "slight rain") ∧
    getWeatherDescription (VNum (of_Z 63)) = Ret (Text "moderate rain") ∧
    getWeatherDescription (VNum (of_Z 65)) = Ret (Text "heavy rain") ∧
    getWeatherDescription (VNum (of_Z 71)) = Ret (Text "slight snow") ∧
    getWeatherDescription (VNum (of_Z 73)) = Ret (Text "moderate snow") ∧
    getWeatherDescription (VNum (of_Z 75)) = Ret (Text "heavy snow") ∧
    getWeatherDescription (VNum (of_Z 95)) = Ret (Text "thunderstorm") ∧
    getWeatherDescription (VNum (of_Z 96)) = Ret (Text "thunderstorm with hail") ∧
    getWeatherDescription (VNum (of_Z 99)) = Ret (Text "thunderstorm with heavy hail") ) ∧
  (∀ n code, JsNum.eqb n (of_Z code) = true →
     getWeatherDescription (VNum n) = getWeatherDescription (VNum (of_Z code))) ∧
  (∀ n, (∀ code, In code listed_codes → JsNum.eqb n (of_Z code) = false) →
     getWeatherDescription (VNum n) = Ret (Text "clear sky")).
Proof.
  split; [|split].
  - repeat split; reflexivity.
  - intros n code Heq. rewrite !getWeatherDescription_number.
    apply to_integer_eqb in Heq. now rewrite Heq, to_integer_of_Z.
  - intros n Hnone. rewrite getWeatherDescription_number.
    destruct (JsNum.to_integer n) as [z|] eqn:Hz; [|reflexivity].
    apply to_integer_eqb in Hz.
    assert (∀ code, In code listed_codes → Z.eqb code z = false) as Hne.
    { intros code Hin. apply Z.eqb_neq. intros ->.
      specialize (Hnone z Hin). congruence. }
    unfold listed_codes in Hne. unfold descriptions. cbn [List.find fst].
    rewrite !Hne by (simpl; tauto). reflexivity.
Qed.

End CodeProperties.

Lemma getWeatherDescription_table_witness :
  @getWeatherDescription integer_runtime (VNum (Num (7 # 2))) = Ret (Text "clear sky").
Proof.
  apply (proj2 (proj2 (@getWeatherDescription_table integer_runtime))).
  intros code Hin. simpl in Hin.
  repeat (destruct Hin as [<-|Hin]; [reflexivity|]). destruct Hin.
Defined.

Section IconBuckets.
Context `{Runtime}.

Ltac q_facts :=
  repeat match goal with
    | H : (_ && _) = true |- _ => apply andb_true_iff in H as [? ?]
    | H : (_ && _) = false |- _ => apply andb_false_iff in H as [?|?]
    end;
  q_reflect.

Ltac walk_buckets :=
  repeat match goal with
    | H : ?b = _ |- context [if ?b then _ else _] => rewrite H
    | |- context [if ?b then _ else _] => destruct b eqn:?
    end;
  try reflexivity; exfalso; q_facts; unfold inject_Z in *; lra.

(** C6, as the code has it. On a number: 0 gives the clear-day icon; every
    other number up to 3 gives the partly-cloudy-day icon, so the interval
    from 1 to 3 and also every number below 1, negative or fractional; 45 to
    48 gives mist, 51 to 55 shower, 61 to 65 rain, 71 to 75 snow, 95 and
    above thunderstorm; every other number, NaN included, gives the
    clear-day icon. On 0 and on every number from 1 on this is the rule of
    the specification. *)
Theorem getWeatherIconFromCode_buckets (n : jsnum) :
  let icon := getWeatherIconFromCode (VNum n) in
  (JsNum.eqb n (of_Z 0) = true → icon = Ret "01d") ∧
  (JsNum.eqb n (of_Z 0) = false → JsNum.leb n (of_Z 3) = true → icon = Ret "02d") ∧
  (within 45 48 n = true → icon = Ret "50d") ∧
  (within 51 55 n = true → icon = Ret "09d") ∧
  (within 61 65 n = true → icon = Ret "10d") ∧
  (within 71 75 n = true → icon = Ret "13d") ∧
  (JsNum.geb n (of_Z 95) = true → icon = Ret "11d") ∧
  (JsNum.leb n (of_Z 3) = false → within 45 48 n = false → within 51 55 n = false →
   within 61 65 n = false → within 71 75 n = false → JsNum.geb n (of_Z 95) = false →
   icon = Ret "01d") ∧
  (JsNum.eqb n (of_Z 0) = true ∨ JsNum.ltb n (of_Z 1) = false →
   icon = Ret (icon_bucket_rule n)).
Proof.
  unfold getWeatherIconFromCode, icon_bucket_rule, within, strict_equals.
  destruct n as [q| | |]; cbn;
    try (repeat split; intros; try reflexivity; try discriminate; intuition discriminate).
  repeat split; intros.
  1-8: walk_buckets.
  destruct (Qeq_bool q (inject_Z 0)) eqn:E0; [reflexivity|].
  assert (Qle_bool (inject_Z 1) q = true) as ->.
  { destruct H0 as [?|H1]; [discriminate|]. now apply negb_false_iff in H1. }
  cbn [andb].
  repeat match goal with
    | |- context [if ?b then _ else _] => destruct b
    end; reflexivity.
Qed.

(** C5, as the code has it. Code 61 gives "slight rain" and the rain icon,
    code 3 gives "overcast" and the partly-cloudy-day icon, and the unlisted
    code 999 gives "clear sky" with the thunderstorm icon, since it is 95 or
    more. *)
Theorem adapter_B_test_codes :
  getWeatherDescription (VNum (of_Z 61)) = Ret (Text "slight rain") ∧
  getWeatherIconFromCode (VNum (of_Z 61)) = Ret "10d" ∧
  getWeatherDescription (VNum (of_Z 3)) = Ret (Text "overcast") ∧
  getWeatherIconFromCode (VNum (of_Z 3)) = Ret "02d" ∧
  getWeatherDescription (VNum (of_Z 999)) = Ret (Text "clear sky") ∧
  getWeatherIconFromCode (VNum (of_Z 999)) = Ret "11d".
Proof. repeat split; reflexivity. Qed.

End IconBuckets.

Lemma getWeatherIconFromCode_buckets_witness :
  @getWeatherIconFromCode integer_runtime (VNum (Num (-3 # 2))) = Ret "02d".
Proof.
  apply (@getWeatherIconFromCode_buckets integer_runtime (Num (-3 # 2))); reflexivity.
Defined.

(** C6 as stated fails below 1: the code -1 is in none of the intervals of
    the specification, which therefore asks for the clear-day icon, and the
    code answers with the partly-cloudy-day icon. *)
Lemma negative_code_partly_cloudy :
  icon_bucket_rule (of_Z (-1)) = "01d" ∧
  @getWeatherIconFromCode integer_runtime (VNum (of_Z (-1))) = Ret "02d" ∧
  @getWeatherIconFromCode integer_runtime (VNum (of_Z (-1))) ≠
    Ret (icon_bucket_rule (of_Z (-1))).
Proof. repeat split. discriminate. Qed.

(** C5 as stated fails on its third code: 999 gets the thunderstorm icon,
    not the clear-day icon. *)
Lemma code_999_thunderstorm_icon :
  @getWeatherIconFromCode integer_runtime (VNum (of_Z 999)) = Ret "11d" ∧
  @getWeatherIconFromCode integer_runtime (VNum (of_Z 999)) ≠ Ret "01d".
Proof. split; [reflexivity | discriminate]. Qed.

(** ** Promise.any *)

Lemma first_fulfilled_split {A} (order : list nat) (ps : list (outcome A)) (a : A) :
  first_fulfilled order ps = Some a →
  ∃ l1 j l2, order = (l1 ++ j :: l2)%list ∧ ps !! j = Some (Ret a) ∧
             ∀ k b, In k l1 → ps !! k ≠ Some (Ret b).
Proof.
  induction order as [|i rest IH]; simpl; [discriminate|].
  destruct (ps !! i ≫= fulfilled) as [a'|] eqn:Hi.
  - intros [= ->]. exists [], i, rest. split; [reflexivity|]. split.
    + destruct (ps !! i) as [[]|]; simpl in Hi; congruence.
    + intros k b [].
  - intros (l1 & j & l2 & -> & Hj & Hl1)%IH.
    exists (i :: l1), j, l2. split; [reflexivity|]. split; [exact Hj|].
    intros k b [<-|Hin] Hk; [|now apply (Hl1 k b)].
    rewrite Hk in Hi. discriminate.
Qed.

Lemma first_fulfilled_none {A} (order : list nat) (ps : list (outcome A)) :
  first_fulfilled order ps = None →
  ∀ k b, In k order → ps !! k ≠ Some (Ret b).
Proof.
  induction order as [|i rest IH]; simpl; [intros _ k b []|].
  destruct (ps !! i ≫= fulfilled) as [a'|] eqn:Hi; [discriminate|].
  intros Hrest k b [<-|Hin] Hk; [|now apply (IH Hrest k b)].
  rewrite Hk in Hi. discriminate.
Qed.

Lemma indices_complete (o : settle_order) (k : nat) :
  (k < 3)%nat → In k (indices o).
Proof.
  intros Hk. destruct k as [|[|[|k]]]; [..|lia]; destruct o; simpl; tauto.
Qed.

(** With three promises of which one at least is fulfilled, [Promise.any]
    is fulfilled with the value of the one that settles first among the
    fulfilled ones. *)
Lemma Promise_any_first {A} (o : settle_order) (p0 p1 p2 : outcome A) :
  let ps := [p0; p1; p2] in
  (∃ i a, ps !! i = Some (Ret a)) →
  ∃ j winner,
    ps !! j = Some (Ret winner) ∧
    (∀ k b, ps !! k = Some (Ret b) → k = j ∨ settles_before o j k) ∧
    Promise_any (indices o) ps = Ret winner.
Proof.
  intros ps (i & a & Hi). unfold Promise_any.
  destruct (first_fulfilled (indices o) ps) as [winner|] eqn:Hfirst.
  - apply first_fulfilled_split in Hfirst as (l1 & j & l2 & Ho & Hj & Hl1).
    exists j, winner. split; [exact Hj|]. split; [|reflexivity].
    intros k b Hk. destruct (Nat.eq_dec k j) as [->|Hne]; [now left|right].
    assert (k < 3)%nat as Hlt by (apply lookup_lt_Some in Hk; exact Hk).
    pose proof (indices_complete o k Hlt) as Hin.
    rewrite Ho in Hin. apply in_app_or in Hin as [Hin|[->|Hin]].
    + now destruct (Hl1 k b Hin).
    + now destruct Hne.
    + apply in_split in Hin as (l3 & l4 & ->). now exists l1, l3, l4.
  - exfalso. apply (first_fulfilled_none _ _ Hfirst i a); [|exact Hi].
    apply indices_complete. apply lookup_lt_Some in Hi. exact Hi.
Qed.

(** With three rejected promises, [Promise.any] is rejected. *)
Lemma Promise_any_all_rejected {A} (o : settle_order) (e0 e1 e2 : error) :
  Promise_any (A:=A) (indices o) [Throw e0; Throw e1; Throw e2] =
  Throw (AggregateError [e0; e1; e2]).
Proof. destruct o; reflexivity. Qed.


(** ** The orchestrator *)

Section OrchestratorProperties.
Context `{Runtime}.

Lemma settled_promises (net : request → reply) (city : string) :
  settled <$> promises net city =
  [ settled (fetchFromWeatherAPI net city);
    settled (fetchFromOpenMeteo net city);
    settled (fetchFromWttr net city) ].
Proof. reflexivity. Qed.

Lemma stale_runs_race (w : world) (cache : gmap string cache_entry) (city : string) :
  stale_or_absent w cache city →
  fetchWeatherData w cache city = race w cache city.
Proof.
  intros Hstale. unfold fetchWeatherData, cacheKey.
  destruct (cache !! trim (toLowerCase city)) as [cached|] eqn:Hc; [|reflexivity].
  specialize (Hstale cached Hc).
  destruct (Z.ltb_spec (now_on_call w - timestamp cached) CACHE_DURATION); [lia|reflexivity].
Qed.

Lemma fresh_runs_nothing (w : world) (cache : gmap string cache_entry)
    (city : string) (cached : cache_entry) :
  cache !! trim (toLowerCase city) = Some cached →
  now_on_call w - timestamp cached < CACHE_DURATION →
  fetchWeatherData w cache city =
    {| returned := Ret (data cached); WEATHER_CACHE := cache; sent := [] |}.
Proof.
  intros Hc Hage. unfold fetchWeatherData, cacheKey. rewrite Hc.
  destruct (Z.ltb_spec (now_on_call w - timestamp cached) CACHE_DURATION); [reflexivity|lia].
Qed.

(** C1. When the cache has an entry under the lower-cased, trimmed query and
    the entry is younger than the staleness duration of ten minutes, the
    call returns the report of that entry, sends no request (no adapter
    runs) and leaves the cache as it was. *)
Theorem fresh_entry_returned (w : world) (cache : gmap string cache_entry)
    (city : string) (cached : cache_entry) :
  cache !! trim (toLowerCase city) = Some cached →
  now_on_call w - timestamp cached < CACHE_DURATION →
  CACHE_DURATION = 600000 ∧
  fetchWeatherData w cache city =
    {| returned := Ret (data cached); WEATHER_CACHE := cache; sent := [] |}.
Proof.
  intros Hc Hage. split; [reflexivity|].
  now apply fresh_runs_nothing.
Qed.

(** C2. When the adapters are run (no fresh entry) and all three fail, the
    call is rejected with the one error "Unable to fetch weather data from
    any source", whatever the three errors were, and the cache, so also the
    entry of the query, is what it was. *)
Theorem all_adapters_fail (w : world) (cache : gmap string cache_entry)
    (city : string) (eA eB eC : error) :
  stale_or_absent w cache city →
  settled (fetchFromWeatherAPI (net w) city) = Throw eA →
  settled (fetchFromOpenMeteo (net w) city) = Throw eB →
  settled (fetchFromWttr (net w) city) = Throw eC →
  returned (fetchWeatherData w cache city) =
    Throw (Error "Unable to fetch weather data from any source") ∧
  WEATHER_CACHE (fetchWeatherData w cache city) = cache ∧
  WEATHER_CACHE (fetchWeatherData w cache city) !! trim (toLowerCase city) =
    cache !! trim (toLowerCase city).
Proof.
  intros Hstale HA HB HC. rewrite (stale_runs_race _ _ _ Hstale).
  unfold race. rewrite settled_promises, HA, HB, HC, Promise_any_all_rejected.
  repeat split; reflexivity.
Qed.

(** C3. When the adapters are run and at least one succeeds, the call
    returns the report of the adapter that succeeds first, and the cache
    gets that report with the current time under the lower-cased, trimmed
    query; when exactly one succeeds and the two others fail, whichever they
    are and in whatever order they settle, that is the report returned. *)
Theorem first_success_returned (w : world) (cache : gmap string cache_entry) (city : string) :
  stale_or_absent w cache city →
  let ps := settled <$> promises (net w) city in
  let result := fetchWeatherData w cache city in
  let stored r :=
    <[ trim (toLowerCase city) := {| data := r; timestamp := now_on_resume w |} ]> cache in
  (∀ i r, ps !! i = Some (Ret r) →
     ∃ j winner,
       ps !! j = Some (Ret winner) ∧
       (∀ k r', ps !! k = Some (Ret r') → k = j ∨ settles_before (order w) j k) ∧
       returned result = Ret winner ∧
       WEATHER_CACHE result = stored winner) ∧
  (∀ i r, ps !! i = Some (Ret r) →
     (∀ k, k ≠ i → (k < 3)%nat → ∃ e, ps !! k = Some (Throw e)) →
     returned result = Ret r ∧ WEATHER_CACHE result = stored r).
Proof.
  intros Hstale ps result stored.
  assert (∀ i r, ps !! i = Some (Ret r) →
     ∃ j winner,
       ps !! j = Some (Ret winner) ∧
       (∀ k r', ps !! k = Some (Ret r') → k = j ∨ settles_before (order w) j k) ∧
       returned result = Ret winner ∧
       WEATHER_CACHE result = stored winner) as Hfirst.
  { intros i r Hi. subst ps result stored.
    rewrite (stale_runs_race _ _ _ Hstale). unfold race.
    rewrite settled_promises in *.
    destruct (Promise_any_first (order w) _ _ _ (ex_intro _ i (ex_intro _ r Hi)))
      as (j & winner & Hj & Hbefore & Hany).
    exists j, winner. rewrite Hany. repeat split; assumption. }
  split; [exact Hfirst|].
  intros i r Hi Hothers.
  destruct (Hfirst i r Hi) as (j & winner & Hj & _ & Hret & Hcache).
  destruct (Nat.eq_dec j i) as [->|Hne].
  - rewrite Hi in Hj. injection Hj as <-. now split.
  - destruct (Hothers j Hne) as [e He]; [|congruence].
    apply lookup_lt_Some in Hj. exact Hj.
Qed.

(** C10. A call changes no entry of the cache but the one under the
    lower-cased, trimmed form of its own query, however it ends. *)
Theorem other_entries_untouched (w : world) (cache : gmap string cache_entry)
    (city key : string) :
  key ≠ trim (toLowerCase city) →
  WEATHER_CACHE (fetchWeatherData w cache city) !! key = cache !! key.
Proof.
  intros Hkey.
  assert (WEATHER_CACHE (race w cache city) !! key = cache !! key) as Hrace.
  { unfold race.
    destruct (Promise_any _ _); simpl; [|reflexivity..].
    now apply lookup_insert_ne. }
  unfold fetchWeatherData.
  destruct (cache !! cacheKey city) as [cached|]; [|exact Hrace].
  destruct (Z.ltb _ _); [reflexivity|exact Hrace].
Qed.

(** C8. Queries that are equal once lower-cased and trimmed have one cache
    key: the entry a call stores or finds for the one is the entry under the
    key of the other, and a call for the other returns it while it is fresh.
    "Paris", " paris " and "PARIS" all have the key "paris". *)
Theorem equal_normalised_queries_share_entry :
  (cacheKey "Paris" = "paris" ∧ cacheKey " paris " = "paris" ∧ cacheKey "PARIS" = "paris") ∧
  (∀ q1 q2, trim (toLowerCase q1) = trim (toLowerCase q2) →
     cacheKey q1 = cacheKey q2 ∧
     ∀ w cache,
       let after := WEATHER_CACHE (fetchWeatherData w cache q1) in
       (∀ r, returned (fetchWeatherData w cache q1) = Ret r →
             ∃ entry, after !! cacheKey q2 = Some entry ∧ data entry = r) ∧
       (∀ w' entry, after !! cacheKey q1 = Some entry →
             now_on_call w' - timestamp entry < CACHE_DURATION →
             fetchWeatherData w' after q2 =
               {| returned := Ret (data entry); WEATHER_CACHE := after; sent := [] |})).
Proof.
  split; [repeat split; reflexivity|].
  intros q1 q2 Heq. split; [exact Heq|]. intros w cache after. split.
  - intros r. subst after. unfold cacheKey. rewrite <- Heq.
    unfold fetchWeatherData, cacheKey.
    assert (returned (race w cache q1) = Ret r →
            ∃ entry, WEATHER_CACHE (race w cache q1) !! trim (toLowerCase q1) = Some entry ∧
                     data entry = r) as Hrace.
    { unfold race, cacheKey. destruct (Promise_any _ _); simpl; [|discriminate..].
      intros [= ->]. eexists. split; [apply lookup_insert_eq|reflexivity]. }
    destruct (cache !! trim (toLowerCase q1)) as [cached|] eqn:Hc; [|exact Hrace].
    destruct (Z.ltb _ _); [|exact Hrace].
    simpl. intros [= <-]. eauto.
  - intros w' entry Hentry Hage. unfold cacheKey in Hentry. rewrite Heq in Hentry.
    now apply fresh_runs_nothing.
Qed.

End OrchestratorProperties.

Lemma fresh_entry_returned_witness :
  CACHE_DURATION = 600000 ∧
  @fetchWeatherData integer_runtime offline_world
    {[ "paris" := {| data := paris_report; timestamp := 900 |} ]} " Paris " =
  {| returned := Ret paris_report;
     WEATHER_CACHE := {[ "paris" := {| data := paris_report; timestamp := 900 |} ]};
     sent := [] |}.
Proof.
  apply (@fresh_entry_returned integer_runtime offline_world
           {[ "paris" := {| data := paris_report; timestamp := 900 |} ]} " Paris "
           {| data := paris_report; timestamp := 900 |}).
  - apply lookup_singleton_eq.
  - reflexivity.
Defined.

Lemma all_adapters_fail_witness :
  returned (@fetchWeatherData integer_runtime offline_world ∅ "Paris") =
    Throw (Error "Unable to fetch weather data from any source") ∧
  WEATHER_CACHE (@fetchWeatherData integer_runtime offline_world ∅ "Paris") = ∅ ∧
  WEATHER_CACHE (@fetchWeatherData integer_runtime offline_world ∅ "Paris")
    !! trim (toLowerCase "Paris") = (∅ : gmap string cache_entry) !! trim (toLowerCase "Paris").
Proof.
  apply (@all_adapters_fail integer_runtime offline_world ∅ "Paris"
           NetworkError NetworkError NetworkError).
  - intros cached Hc. rewrite lookup_empty in Hc. discriminate.
  - reflexivity.
  - reflexivity.
  - reflexivity.
Defined.

Lemma first_success_returned_witness :
  returned (@fetchWeatherData integer_runtime wttr_world ∅ "Paris") = Ret paris_report ∧
  WEATHER_CACHE (@fetchWeatherData integer_runtime wttr_world ∅ "Paris") =
    <[ "paris" := {| data := paris_report; timestamp := 1250 |} ]> ∅.
Proof.
  assert (stale_or_absent wttr_world ∅ "Paris") as Hstale.
  { intros cached Hc. rewrite lookup_empty in Hc. discriminate. }
  apply (proj2 (@first_success_returned integer_runtime wttr_world ∅ "Paris" Hstale)
           2%nat paris_report).
  - reflexivity.
  - intros [|[|[|k]]] Hk Hlt; [eexists; reflexivity..|congruence|lia].
Defined.

Lemma other_entries_untouched_witness :
  WEATHER_CACHE (@fetchWeatherData integer_runtime wttr_world ∅ "Paris") !! "london" =
  (∅ : gmap string cache_entry) !! "london".
Proof.
  apply (@other_entries_untouched integer_runtime wttr_world ∅ "Paris" "london").
  discriminate.
Defined.

Lemma equal_normalised_queries_share_entry_witness :
  cacheKey "Paris" = cacheKey " paris ".
Proof.
  apply (proj2 (@equal_normalised_queries_share_entry integer_runtime) "Paris" " paris ").
  reflexivity.
Defined.

(** ** The adapters *)

Lemma settled_bind_Ret {A B} (m : async A) (k : A → async B) (b : B) :
  settled (m ≫= k) = Ret b → ∃ a, settled m = Ret a ∧ settled (k a) = Ret b.
Proof.
  unfold mbind, async_bind, abind.
  destruct (settled m) as [a| |]; simpl; [eauto|discriminate..].
Qed.

Lemma outcome_bind_Ret {A B} (m : outcome A) (k : A → outcome B) (b : B) :
  m ≫= k = Ret b → ∃ a, m = Ret a ∧ k a = Ret b.
Proof. destruct m as [a| |]; simpl; [eauto|discriminate..]. Qed.

Lemma settled_json_Ret (response : bool * outcome value) (v : value) :
  settled (json response) = Ret v → snd response = Ret v.
Proof. intros Hv. exact Hv. Qed.

Ltac unwind :=
  repeat match goal with
    | H : settled (_ ≫= _) = Ret _ |- _ =>
        apply settled_bind_Ret in H as (? & ? & ?)
    | H : settled (if ?c then _ else _) = Ret _ |- _ =>
        destruct c eqn:?; [try discriminate H|try discriminate H]
    | H : settled (sync _) = Ret _ |- _ => cbn [sync settled] in H
    | H : settled (json _) = Ret _ |- _ => apply settled_json_Ret in H
    | H : @mbind outcome _ _ _ _ _ = Ret _ |- _ =>
        apply outcome_bind_Ret in H as (? & ? & ?)
    | H : mret _ = Ret _ |- _ => injection H as <-
    end.

Section AdapterProperties.
Context `{Runtime}.

Lemma settled_after_fetch {A} (net : request → reply) (r : request)
    (k : bool * outcome value → async A) :
  settled (fetch net r ≫= k) =
  match net r with
  | Unreachable => Throw NetworkError
  | Silent => Never
  | Response ok (Some v) => settled (k (ok, Ret v))
  | Response ok None => settled (k (ok, Throw SyntaxError))
  | Broken ok e => settled (k (ok, Throw e))
  | Stalled ok => settled (k (ok, Never))
  end.
Proof.
  unfold mbind, async_bind, abind, fetch. cbn [settled].
  destruct (net r) as [| |ok [v|]|ok e|ok]; reflexivity.
Qed.

Lemma settled_after_response {A} (net : request → reply) (r : request)
    (k : bool * outcome value → async A) (response : bool * outcome value) :
  settled (fetch net r) = Ret response →
  settled (fetch net r ≫= k) = settled (k response).
Proof.
  intros Hfetch. unfold mbind, async_bind, abind. rewrite Hfetch. reflexivity.
Qed.

Lemma settled_after_sync {A B} (o : outcome A) (k : A → async B) :
  settled (sync o ≫= k) =
  match o with
  | Ret a => settled (k a)
  | Throw e => Throw e
  | Never => Never
  end.
Proof. destruct o; reflexivity. Qed.

Lemma settled_after_json {A} (response : bool * outcome value) (k : value → async A) :
  settled (json response ≫= k) =
  match snd response with
  | Ret v => settled (k v)
  | Throw e => Throw e
  | Never => Never
  end.
Proof. apply (settled_after_sync (snd response)). Qed.

(** [ToString] returns or throws a TypeError. *)
Lemma ToString_outcome (v : value) :
  (∃ s, ToString v = Ret s) ∨ ToString v = Throw TypeError.
Proof.
  revert v. fix IH 1. intros [| |[]|n|s|elems|props]; simpl.
  1-6: clear IH; eauto.
  - induction elems as [|x rest IHrest]; [clear IH; eauto|].
    pose proof (IH x) as Hx. clear IH.
    assert ((∃ s, match x with
                  | VUndefined | VNull => Ret ""
                  | _ => ToString x
                  end = Ret s) ∨
            match x with
            | VUndefined | VNull => Ret ""
            | _ => ToString x
            end = Throw TypeError) as [[s ->]| ->].
    { destruct x; eauto. }
    + simpl. destruct rest as [|y rest]; [eauto|].
      destruct IHrest as [[t ->]| ->]; simpl; eauto.
    + simpl. eauto.
  - clear IH. destruct (own props "toString"); eauto.
Qed.

(** *** The synchronous part of an adapter returns or throws a TypeError *)

Lemma bind_returns_or_TypeError {A B} (m : outcome A) (k : A → outcome B) :
  returns_or_TypeError m → (∀ a, returns_or_TypeError (k a)) →
  returns_or_TypeError (m ≫= k).
Proof. intros [[a ->]| ->] Hk; [apply Hk|now right]. Qed.

Lemma settled_bind_returns_or_TypeError {A B} (m : async A) (k : A → async B) :
  returns_or_TypeError (settled m) → (∀ a, returns_or_TypeError (settled (k a))) →
  returns_or_TypeError (settled (m ≫= k)).
Proof.
  unfold mbind, async_bind, abind.
  intros [[a ->]| ->] Hk; [apply Hk|now right].
Qed.

Lemma ToString_returns_or_TypeError (v : value) : returns_or_TypeError (ToString v).
Proof. apply ToString_outcome. Qed.

Lemma get_returns_or_TypeError (v : value) (k : string) : returns_or_TypeError (get v k).
Proof.
  unfold returns_or_TypeError.
  destruct v; simpl; eauto;
    repeat match goal with
      | |- context [if ?b then _ else _] => destruct b
      end; eauto.
Qed.

Lemma path_returns_or_TypeError (ks : list string) (v : value) :
  returns_or_TypeError (path v ks).
Proof.
  revert v. induction ks as [|k ks IH]; intros v; simpl; [left; eauto|].
  apply bind_returns_or_TypeError; [apply get_returns_or_TypeError|apply IH].
Qed.

Lemma ToNumber_returns_or_TypeError (v : value) : returns_or_TypeError (ToNumber v).
Proof.
  unfold ToNumber. destruct v as [| |[]| | | |]; try (left; eauto; fail);
    (apply bind_returns_or_TypeError; [apply ToString_outcome|left; eauto]).
Qed.

Lemma parseInt_returns_or_TypeError (v : value) : returns_or_TypeError (parseInt v).
Proof. apply bind_returns_or_TypeError; [apply ToString_outcome|left; eauto]. Qed.

Lemma call_toLowerCase_returns_or_TypeError (v : value) :
  returns_or_TypeError (call_toLowerCase v).
Proof. destruct v; first [right; reflexivity|left; eexists; reflexivity]. Qed.

Lemma getWeatherDescription_returns_or_TypeError (code : value) :
  returns_or_TypeError (getWeatherDescription code).
Proof.
  unfold getWeatherDescription, descriptions_at.
  apply bind_returns_or_TypeError; [|left; eauto].
  destruct code; try (left; eauto; fail);
    (apply bind_returns_or_TypeError; [apply ToString_outcome|left; eauto]).
Qed.

Lemma getWeatherIconFromCode_returns_or_TypeError (code : value) :
  returns_or_TypeError (getWeatherIconFromCode code).
Proof.
  unfold getWeatherIconFromCode. destruct (strict_equals code 0); [left; eauto|].
  apply bind_returns_or_TypeError; [apply ToNumber_returns_or_TypeError|]. intros n.
  repeat match goal with
    | |- context [if ?b then _ else _] => destruct b
    end; left; eauto.
Qed.

Ltac typed :=
  repeat match goal with
    | |- returns_or_TypeError (settled (sync _)) => cbn [sync settled]
    | |- returns_or_TypeError (settled (_ ≫= _)) =>
        apply settled_bind_returns_or_TypeError; [|intros ?]
    | |- returns_or_TypeError (path _ _) => apply path_returns_or_TypeError
    | |- returns_or_TypeError (get _ _) => apply get_returns_or_TypeError
    | |- returns_or_TypeError (ToString _) => apply ToString_returns_or_TypeError
    | |- returns_or_TypeError (ToNumber _) => apply ToNumber_returns_or_TypeError
    | |- returns_or_TypeError (parseInt _) => apply parseInt_returns_or_TypeError
    | |- returns_or_TypeError (call_toLowerCase _) =>
        apply call_toLowerCase_returns_or_TypeError
    | |- returns_or_TypeError (getWeatherDescription _) =>
        apply getWeatherDescription_returns_or_TypeError
    | |- returns_or_TypeError (getWeatherIconFromCode _) =>
        apply getWeatherIconFromCode_returns_or_TypeError
    | |- returns_or_TypeError (@mbind outcome _ _ _ _ _) =>
        apply bind_returns_or_TypeError; [|intros ?]
    | |- returns_or_TypeError (mret _) => left; eexists; reflexivity
    end.

(** *** What a returned report tells about the body *)

Lemma get_Ret_present (v : value) (k : string) (x : value) :
  get v k = Ret x → nullish v = false.
Proof. destruct v; simpl; intros Hx; (discriminate Hx || reflexivity). Qed.

Lemma get_nullish (v : value) (k : string) : nullish v = true → get v k = Throw TypeError.
Proof. destruct v; (discriminate || reflexivity). Qed.

Lemma get_present (v : value) (k : string) : nullish v = false → ∃ x, get v k = Ret x.
Proof.
  destruct v; try discriminate; intros _; simpl; eauto;
    repeat match goal with
      | |- context [if ?b then _ else _] => destruct b
      end; eauto.
Qed.

Lemma call_toLowerCase_Ret (v : value) (t : string) :
  call_toLowerCase v = Ret t → ∃ s, v = VStr s.
Proof. destruct v; try discriminate. eauto. Qed.

(** The reads of a chain, one by one, and the objects they show present. *)
Ltac reads :=
  repeat match goal with
    | H : path _ _ = Ret _ |- _ => cbn [path] in H
    | H : @mbind outcome _ _ _ _ _ = Ret _ |- _ =>
        apply outcome_bind_Ret in H as (? & ? & ?)
    end;
  repeat match goal with
    | H : get ?v _ = Ret _ |- _ =>
        lazymatch goal with
        | _ : nullish v = false |- _ => fail
        | _ => pose proof (get_Ret_present _ _ _ H)
        end
    end.

Ltac absent := reads; congruence.

#[local] Arguments parseInt_string : simpl never.
#[local] Arguments getWeatherIconFromDescription : simpl never.
#[local] Arguments JsNum.round : simpl never.

Lemma fetchFromWeatherAPI_body (net : request → reply) (city : string) (data : value) :
  net (WeatherAPI_current city) = Response true (Some data) →
  returns_or_TypeError (settled (fetchFromWeatherAPI net city)) ∧
  ∀ r, settled (fetchFromWeatherAPI net city) = Ret r →
    (∀ object x, In object WeatherAPI_objects → path data object = Ret x →
       nullish x = false) ∧
    (∀ x, path data ["current"; "condition"; "text"] = Ret x → ∃ s, x = VStr s).
Proof.
  intros Hnet. unfold fetchFromWeatherAPI.
  rewrite settled_after_fetch, Hnet. cbn [fst negb].
  rewrite settled_after_json. cbn [snd].
  split; [typed|].
  intros r Hr. unwind. split.
  - intros object seen Hin Hp. destruct (nullish seen) eqn:Hseen; [exfalso|reflexivity].
    simpl in Hin.
    repeat (destruct Hin as [<-|Hin]; [absent|]). destruct Hin.
  - intros seen Hp.
    match goal with
    | H : call_toLowerCase _ = Ret _ |- _ =>
        apply call_toLowerCase_Ret in H as [s H]; exists s
    end.
    reads. congruence.
Qed.

Lemma fetchFromWttr_body (net : request → reply) (city : string) (data : value) :
  net (Wttr_j1 city) = Response true (Some data) →
  returns_or_TypeError (settled (fetchFromWttr net city)) ∧
  ∀ r, settled (fetchFromWttr net city) = Ret r →
    (∀ object x, In object Wttr_objects → path data object = Ret x →
       nullish x = false) ∧
    (∀ x, path data ["current_condition"; "0"; "weatherDesc"; "0"; "value"] = Ret x →
       ∃ s, x = VStr s).
Proof.
  intros Hnet. unfold fetchFromWttr.
  rewrite settled_after_fetch, Hnet. cbn [fst negb].
  rewrite settled_after_json. cbn [snd].
  split; [typed|].
  intros r Hr. unwind. split.
  - intros object seen Hin Hp. destruct (nullish seen) eqn:Hseen; [exfalso|reflexivity].
    simpl in Hin.
    repeat (destruct Hin as [<-|Hin]; [absent|]). destruct Hin.
  - intros seen Hp.
    match goal with
    | H : call_toLowerCase _ = Ret _ |- _ =>
        apply call_toLowerCase_Ret in H as [s H]; exists s
    end.
    reads. congruence.
Qed.

(** C9, as the code has it. Each adapter rejects when a request of its own
    fails (for adapter B the geocoding request and the forecast request),
    when the status of an answer is not a success, when a body is not JSON
    or cannot be read to its end, and, for adapter B, when the geocoding
    answer has no result. A body in which an object that the adapter reads
    a property of is undefined or null makes it reject with a TypeError,
    whichever of these objects it is, and so does a condition text that is
    not a string. The values of the fields are not checked: on a body of
    the expected shape adapter C returns a report whatever the texts of
    temp_F and humidity are, and where [parseInt] finds no integer the
    report carries NaN. *)
Theorem adapters_reject_or_build (net : request → reply) (city : string) :
  ( (net (WeatherAPI_current city) = Unreachable →
       settled (fetchFromWeatherAPI net city) = Throw NetworkError) ∧
    (∀ response, settled (fetch net (WeatherAPI_current city)) = Ret response →
       fst response = false →
       settled (fetchFromWeatherAPI net city) = Throw (Error "WeatherAPI failed")) ∧
    (net (WeatherAPI_current city) = Response true None →
       settled (fetchFromWeatherAPI net city) = Throw SyntaxError) ∧
    (∀ response e, settled (fetch net (WeatherAPI_current city)) = Ret response →
       fst response = true → snd response = Throw e →
       settled (fetchFromWeatherAPI net city) = Throw e) ∧
    (∀ data, net (WeatherAPI_current city) = Response true (Some data) →
       (∀ object x, In object WeatherAPI_objects → path data object = Ret x →
          nullish x = true →
          settled (fetchFromWeatherAPI net city) = Throw TypeError) ∧
       (∀ x, path data ["current"; "condition"; "text"] = Ret x → (∀ s, x ≠ VStr s) →
          settled (fetchFromWeatherAPI net city) = Throw TypeError)) ) ∧
  ( (net (OpenMeteo_search city) = Unreachable →
       settled (fetchFromOpenMeteo net city) = Throw NetworkError) ∧
    (∀ response, settled (fetch net (OpenMeteo_search city)) = Ret response →
       fst response = false →
       settled (fetchFromOpenMeteo net city) = Throw (Error "Geocoding failed")) ∧
    (net (OpenMeteo_search city) = Response true None →
       settled (fetchFromOpenMeteo net city) = Throw SyntaxError) ∧
    (∀ response e, settled (fetch net (OpenMeteo_search city)) = Ret response →
       fst response = true → snd response = Throw e →
       settled (fetchFromOpenMeteo net city) = Throw e) ∧
    (∀ geoData, net (OpenMeteo_search city) = Response true (Some geoData) →
       (nullish geoData = true →
          settled (fetchFromOpenMeteo net city) = Throw TypeError) ∧
       (∀ results, get geoData "results" = Ret results →
          (ToBoolean results = false ∨ get results "length" = Ret (VNum (of_Z 0)) →
             settled (fetchFromOpenMeteo net city) = Throw (Error "City not found")) ∧
          (∀ length first,
             ToBoolean results = true →
             get results "length" = Ret length → strict_equals length 0 = false →
             get results "0" = Ret first →
             (nullish first = true →
                settled (fetchFromOpenMeteo net city) = Throw TypeError) ∧
             (∀ lat lon,
                get first "latitude" ≫= ToString = Ret lat →
                get first "longitude" ≫= ToString = Ret lon →
                (net (OpenMeteo_forecast lat lon) = Unreachable →
                   settled (fetchFromOpenMeteo net city) = Throw NetworkError) ∧
                (∀ response,
                   settled (fetch net (OpenMeteo_forecast lat lon)) = Ret response →
                   fst response = false →
                   settled (fetchFromOpenMeteo net city) =
                     Throw (Error "Weather fetch failed")) ∧
                (net (OpenMeteo_forecast lat lon) = Response true None →
                   settled (fetchFromOpenMeteo net city) = Throw SyntaxError) ∧
                (∀ response e,
                   settled (fetch net (OpenMeteo_forecast lat lon)) = Ret response →
                   fst response = true → snd response = Throw e →
                   settled (fetchFromOpenMeteo net city) = Throw e) ∧
                (∀ weatherData object x,
                   net (OpenMeteo_forecast lat lon) = Response true (Some weatherData) →
                   In object OpenMeteo_forecast_objects →
                   path weatherData object = Ret x → nullish x = true →
                   settled (fetchFromOpenMeteo net city) = Throw TypeError))))) ) ∧
  ( (net (Wttr_j1 city) = Unreachable →
       settled (fetchFromWttr net city) = Throw NetworkError) ∧
    (∀ response, settled (fetch net (Wttr_j1 city)) = Ret response →
       fst response = false →
       settled (fetchFromWttr net city) = Throw (Error "Wttr failed")) ∧
    (net (Wttr_j1 city) = Response true None →
       settled (fetchFromWttr net city) = Throw SyntaxError) ∧
    (∀ response e, settled (fetch net (Wttr_j1 city)) = Ret response →
       fst response = true → snd response = Throw e →
       settled (fetchFromWttr net city) = Throw e) ∧
    (∀ data, net (Wttr_j1 city) = Response true (Some data) →
       (∀ object x, In object Wttr_objects → path data object = Ret x →
          nullish x = true →
          settled (fetchFromWttr net city) = Throw TypeError) ∧
       (∀ x, path data ["current_condition"; "0"; "weatherDesc"; "0"; "value"] = Ret x →
          (∀ s, x ≠ VStr s) →
          settled (fetchFromWttr net city) = Throw TypeError)) ) ∧
  (∀ areaName country temp_F humidity weatherDesc,
     net (Wttr_j1 city) =
       Response true (Some (wttr_body areaName country temp_F humidity weatherDesc)) →
     settled (fetchFromWttr net city) =
       Ret {| name := areaName ++ ", " ++ country;
              main := {| temp := JsNum.round (parseInt_string temp_F);
                         humidity := VNum (parseInt_string humidity) |};
              weather := [ {| description := Text (toLowerCase weatherDesc);
                              icon := getWeatherIconFromDescription
                                        (toLowerCase weatherDesc) |} ] |} ∧
     (parseInt_string temp_F = NaN → JsNum.round (parseInt_string temp_F) = NaN)).
Proof.
  split; [|split; [|split]].
  - split_and!.
    + intros Hnet. unfold fetchFromWeatherAPI. rewrite settled_after_fetch, Hnet. reflexivity.
    + intros [ok body] Hfetch Hok. cbn in Hok. subst ok.
      unfold fetchFromWeatherAPI. rewrite (settled_after_response _ _ _ _ Hfetch). reflexivity.
    + intros Hnet. unfold fetchFromWeatherAPI. rewrite settled_after_fetch, Hnet. reflexivity.
    + intros [ok body] e Hfetch Hok Hbody. cbn in Hok, Hbody. subst ok body.
      unfold fetchFromWeatherAPI. rewrite (settled_after_response _ _ _ _ Hfetch). reflexivity.
    + intros data Hnet.
      destruct (fetchFromWeatherAPI_body net city data Hnet) as [Hout Hret]. split.
      * intros object x Hin Hp Hx.
        destruct Hout as [[r Hr]|Ht]; [exfalso|exact Ht].
        destruct (Hret r Hr) as [Hobj _].
        rewrite (Hobj object x Hin Hp) in Hx. discriminate.
      * intros x Hp Hs.
        destruct Hout as [[r Hr]|Ht]; [exfalso|exact Ht].
        destruct (Hret r Hr) as [_ Htext].
        destruct (Htext x Hp) as [s ->]. now apply (Hs s).
  - split_and!.
    + intros Hnet. unfold fetchFromOpenMeteo. rewrite settled_after_fetch, Hnet. reflexivity.
    + intros [ok body] Hfetch Hok. cbn in Hok. subst ok.
      unfold fetchFromOpenMeteo. rewrite (settled_after_response _ _ _ _ Hfetch). reflexivity.
    + intros Hnet. unfold fetchFromOpenMeteo. rewrite settled_after_fetch, Hnet. reflexivity.
    + intros [ok body] e Hfetch Hok Hbody. cbn in Hok, Hbody. subst ok body.
      unfold fetchFromOpenMeteo. rewrite (settled_after_response _ _ _ _ Hfetch). reflexivity.
    + intros geoData Hnet. unfold fetchFromOpenMeteo.
      rewrite settled_after_fetch, Hnet. cbn [fst negb].
      rewrite settled_after_json. cbn [snd].
      rewrite settled_after_sync. cbn [path].
      split.
      { intros Hn. rewrite (get_nullish _ _ Hn). reflexivity. }
      intros results Hresults. rewrite Hresults. cbn [mbind outcome_bind obind].
      split.
      { intros Hnone.
        destruct (ToBoolean results) eqn:Htrue; [|reflexivity].
        destruct Hnone as [?|Hlen]; [discriminate|].
        cbn [negb]. rewrite settled_after_sync, Hlen. reflexivity. }
      intros length first Htrue Hlen Hne Hfirst.
      rewrite Htrue. cbn [negb].
      rewrite settled_after_sync, Hlen. cbn [mbind outcome_bind obind]. rewrite Hne.
      rewrite settled_after_sync, Hfirst. cbn [mbind outcome_bind obind].
      rewrite settled_after_sync.
      split.
      { intros Hn. rewrite (get_nullish _ _ Hn). reflexivity. }
      intros lat lon (latitude & Hlat & Hlats)%outcome_bind_Ret
                     (longitude & Hlon & Hlons)%outcome_bind_Ret.
      destruct (get_present first "name") as [name_ Hname];
        [exact (get_Ret_present _ _ _ Hlat)|].
      destruct (get_present first "country") as [country Hcountry];
        [exact (get_Ret_present _ _ _ Hlat)|].
      rewrite Hlat.
      rewrite settled_after_sync, Hlon.
      rewrite settled_after_sync, Hname.
      rewrite settled_after_sync, Hcountry.
      rewrite settled_after_sync, Hlats.
      rewrite settled_after_sync, Hlons.
      split_and!.
      * intros Hw. rewrite settled_after_fetch, Hw. reflexivity.
      * intros [ok body] Hfetch Hok. cbn in Hok. subst ok.
        rewrite (settled_after_response _ _ _ _ Hfetch). reflexivity.
      * intros Hw. rewrite settled_after_fetch, Hw. reflexivity.
      * intros [ok body] e Hfetch Hok Hbody. cbn in Hok, Hbody. subst ok body.
        rewrite (settled_after_response _ _ _ _ Hfetch). reflexivity.
      * intros weatherData object seen Hw Hin Hp Hseen.
        rewrite settled_after_fetch, Hw.
        cbn [fst negb]. rewrite settled_after_json. cbn [snd].
        match goal with
        | |- ?o = _ => assert (returns_or_TypeError o) as [[r Hr]|Ht] by typed
        end; [exfalso|exact Ht].
        unwind. simpl in Hin.
        repeat (destruct Hin as [<-|Hin]; [absent|]). destruct Hin.
  - split_and!.
    + intros Hnet. unfold fetchFromWttr. rewrite settled_after_fetch, Hnet. reflexivity.
    + intros [ok body] Hfetch Hok. cbn in Hok. subst ok.
      unfold fetchFromWttr. rewrite (settled_after_response _ _ _ _ Hfetch). reflexivity.
    + intros Hnet. unfold fetchFromWttr. rewrite settled_after_fetch, Hnet. reflexivity.
    + intros [ok body] e Hfetch Hok Hbody. cbn in Hok, Hbody. subst ok body.
      unfold fetchFromWttr. rewrite (settled_after_response _ _ _ _ Hfetch). reflexivity.
    + intros data Hnet.
      destruct (fetchFromWttr_body net city data Hnet) as [Hout Hret]. split.
      * intros object x Hin Hp Hx.
        destruct Hout as [[r Hr]|Ht]; [exfalso|exact Ht].
        destruct (Hret r Hr) as [Hobj _].
        rewrite (Hobj object x Hin Hp) in Hx. discriminate.
      * intros x Hp Hs.
        destruct Hout as [[r Hr]|Ht]; [exfalso|exact Ht].
        destruct (Hret r Hr) as [_ Htext].
        destruct (Htext x Hp) as [s ->]. now apply (Hs s).
  - intros areaName country temp_F humidity weatherDesc Hnet. split.
    + unfold fetchFromWttr. rewrite settled_after_fetch, Hnet. reflexivity.
    + intros ->. reflexivity.
Qed.

End AdapterProperties.

Lemma adapters_reject_or_build_witness :
  settled (@fetchFromWttr integer_runtime (only_wttr paris_body) "Paris") = Ret paris_report.
Proof.
  apply (proj2 (proj2 (proj2
           (@adapters_reject_or_build integer_runtime (only_wttr paris_body) "Paris")))
           "Paris" "France" "72" "40" "Sunny").
  reflexivity.
Defined.

(** C9 as stated fails: wttr.in answers with texts in temp_F and humidity in
    which [parseInt] finds no integer, and adapter C does not reject but
    returns a report whose temperature and humidity are NaN. *)
Lemma wttr_unparseable_fields_returned :
  parseInt_string "warm" = NaN ∧
  parseInt_string "n/a" = NaN ∧
  settled (@fetchFromWttr integer_runtime
             (only_wttr (wttr_body "Paris" "France" "warm" "n/a" "Sunny")) "Paris") =
    Ret {| name := "Paris, France";
           main := {| temp := NaN; humidity := VNum NaN |};
           weather := [ {| description := Text "sunny"; icon := "01d" |} ] |}.
Proof. repeat split. Qed.

(** Rejections of the kinds above, on closed inputs: a forecast that is
    refused, a forecast without current_weather, a geocoding answer with an
    empty list, a wttr.in body without nearest_area, and a wttr.in answer
    whose body cannot be read to its end. *)
Example adapters_reject_instances :
  settled (@fetchFromOpenMeteo integer_runtime
             (λ r, match r with
                   | OpenMeteo_forecast _ _ => Response false None
                   | _ => only_open_meteo r
                   end) "Paris") = Throw (Error "Weather fetch failed") ∧
  settled (@fetchFromOpenMeteo integer_runtime
             (λ r, match r with
                   | OpenMeteo_forecast _ _ => Response true (Some (VObj []))
                   | _ => only_open_meteo r
                   end) "Paris") = Throw TypeError ∧
  settled (@fetchFromOpenMeteo integer_runtime
             (λ _, Response true (Some (VObj [("results", VArr [])]))) "Paris") =
    Throw (Error "City not found") ∧
  settled (@fetchFromWttr integer_runtime
             (only_wttr (VObj [("current_condition", VArr [VObj []])])) "Paris") =
    Throw TypeError ∧
  settled (@fetchFromWttr integer_runtime (λ _, Broken true NetworkError) "Paris") =
    Throw NetworkError.
Proof. split_and!; reflexivity. Qed.

(** * Further properties of the code *)

(** ** Cache keys *)

Lemma is_white_lower_unit (c : ascii) : is_white (lower_unit c) = is_white c.
Proof. destruct c as [[] [] [] [] [] [] [] []]; reflexivity. Qed.

Lemma toLowerCase_trimStart (s : string) :
  toLowerCase (trimStart s) = trimStart (toLowerCase s).
Proof.
  induction s as [|c s IH]; simpl; [reflexivity|].
  rewrite is_white_lower_unit. destruct (is_white c); [exact IH|reflexivity].
Qed.

Lemma toLowerCase_trimEnd (s : string) :
  toLowerCase (trimEnd s) = trimEnd (toLowerCase s).
Proof.
  induction s as [|c s IH]; simpl; [reflexivity|].
  rewrite <- IH, is_white_lower_unit.
  destruct (trimEnd s); simpl; [destruct (is_white c)|]; reflexivity.
Qed.

Lemma toLowerCase_trim (s : string) : toLowerCase (trim s) = trim (toLowerCase s).
Proof. unfold trim. now rewrite toLowerCase_trimEnd, toLowerCase_trimStart. Qed.

Lemma trimEnd_idempotent (s : string) : trimEnd (trimEnd s) = trimEnd s.
Proof.
  induction s as [|c s IH]; simpl; [reflexivity|].
  destruct (trimEnd s) as [|d r] eqn:E.
  - destruct (is_white c) eqn:Ec; simpl; [reflexivity|]. now rewrite Ec.
  - cbn [trimEnd]. cbn [trimEnd] in IH. rewrite IH. reflexivity.
Qed.

(** A string that does not start with white space. *)
Lemma trimStart_head (s : string) :
  trimStart s = EmptyString ∨
  ∃ c r, trimStart s = String c r ∧ is_white c = false.
Proof.
  induction s as [|c s IH]; simpl; [now left|].
  destruct (is_white c) eqn:Ec; [exact IH|]. right. eauto.
Qed.

Lemma trimStart_trimEnd_trimStart (s : string) :
  trimStart (trimEnd (trimStart s)) = trimEnd (trimStart s).
Proof.
  destruct (trimStart_head s) as [->|(c & r & -> & Hc)]; [reflexivity|].
  simpl. destruct (trimEnd r); rewrite ?Hc; simpl; rewrite ?Hc; reflexivity.
Qed.

Lemma trim_idempotent (s : string) : trim (trim s) = trim s.
Proof.
  unfold trim. now rewrite trimStart_trimEnd_trimStart, trimEnd_idempotent.
Qed.

(** X1. The cache key is a normal form: it is its own key, it is trimmed and
    in lower case, and trimming a query first, as [handleSearch] does, does
    not change its key. *)
Theorem cacheKey_normal_form (city : string) :
  cacheKey (cacheKey city) = cacheKey city ∧
  trim (cacheKey city) = cacheKey city ∧
  toLowerCase (cacheKey city) = cacheKey city ∧
  cacheKey (trim city) = cacheKey city.
Proof.
  unfold cacheKey. repeat split.
  - now rewrite toLowerCase_trim, trim_idempotent, toLowerCase_idempotent.
  - apply trim_idempotent.
  - now rewrite toLowerCase_trim, toLowerCase_idempotent.
  - now rewrite toLowerCase_trim, trim_idempotent.
Qed.

(** ** capitalizeWords *)

Lemma is_word_upper_word (c : ascii) : is_word (upper_word c) = is_word c.
Proof. destruct c as [[] [] [] [] [] [] [] []]; reflexivity. Qed.

Lemma upper_word_idempotent (c : ascii) : upper_word (upper_word c) = upper_word c.
Proof. destruct c as [[] [] [] [] [] [] [] []]; reflexivity. Qed.

Lemma lower_unit_upper_word (c : ascii) : lower_unit (upper_word c) = lower_unit c.
Proof. destruct c as [[] [] [] [] [] [] [] []]; reflexivity. Qed.

Lemma capitalize_facts (after_word : bool) (str : string) :
  String.length (capitalize after_word str) = String.length str ∧
  toLowerCase (capitalize after_word str) = toLowerCase str ∧
  capitalize after_word (capitalize after_word str) = capitalize after_word str.
Proof.
  revert after_word. induction str as [|c str IH]; intros after_word; simpl;
    [repeat split|].
  destruct (IH (is_word c)) as (Hlen & Hlow & Hidem).
  destruct (is_word c && negb after_word) eqn:E; simpl.
  - rewrite is_word_upper_word, E, upper_word_idempotent, lower_unit_upper_word.
    split; [|split]; congruence.
  - rewrite E. split; [|split]; congruence.
Qed.

(** The character at each position of the result. *)
Lemma capitalize_get (after_word : bool) (str : string) (i : nat) (c : ascii) :
  String.get i str = Some c →
  String.get i (capitalize after_word str) =
  Some (if is_word c &&
           negb match i with
                | O => after_word
                | S j => match String.get j str with
                         | Some d => is_word d
                         | None => false
                         end
                end
        then upper_word c else c).
Proof.
  revert after_word i. induction str as [|d str IH]; intros after_word i; [discriminate|].
  destruct i as [|i]; simpl.
  - now intros [= ->].
  - intros Hget. rewrite (IH _ _ Hget). destruct i as [|i]; [reflexivity|].
    simpl. reflexivity.
Qed.

(** X2. [capitalizeWords] puts in upper case exactly the letters that start
    a word, a word being a run of ASCII letters, digits and underscores, and
    changes nothing else: the length is kept, the lower-cased text is the
    lower-cased input, and a text that was capitalised is left as it is. *)
Theorem capitalizeWords_only_case (str : string) :
  (∀ i c, String.get i str = Some c →
     String.get i (capitalizeWords str) =
     Some (if is_word c &&
              negb match i with
                   | O => false
                   | S j => match String.get j str with
                            | Some d => is_word d
                            | None => false
                            end
                   end
           then upper_word c else c)) ∧
  String.length (capitalizeWords str) = String.length str ∧
  toLowerCase (capitalizeWords str) = toLowerCase str ∧
  capitalizeWords (capitalizeWords str) = capitalizeWords str.
Proof.
  split; [intros i c; apply capitalize_get | apply capitalize_facts].
Qed.

Lemma capitalizeWords_only_case_witness :
  String.get 6 (capitalizeWords "clear sky") = Some "S"%char.
Proof.
  apply (proj1 (capitalizeWords_only_case "clear sky") 6%nat "s"%char).
  reflexivity.
Defined.

(** ** What the adapters return *)

Lemma round_round (n : jsnum) : JsNum.round (JsNum.round n) = JsNum.round n.
Proof.
  destruct n as [q| | |]; [|reflexivity..].
  unfold JsNum.round, of_Z. do 2 f_equal.
  generalize (Qfloor (q + (1 # 2))). intros z.
  unfold Qfloor, Qplus, inject_Z. simpl.
  symmetry. apply Z.div_unique with (r := 1); lia.
Qed.

Section AdapterReports.
Context `{Runtime}.

Lemma fetchFromWeatherAPI_Ret (net : request → reply) (city : string) (r : report) :
  settled (fetchFromWeatherAPI net city) = Ret r →
  ∃ n t h text,
    r = {| name := n;
           main := {| temp := JsNum.round t; humidity := h |};
           weather := [ {| description := Text (toLowerCase text);
                           icon := getWeatherIconFromDescription (toLowerCase text) |} ] |}.
Proof.
  unfold fetchFromWeatherAPI. intros Hr. unwind.
  unfold call_toLowerCase in *.
  repeat match goal with
    | H : match ?v with _ => _ end = Ret _ |- _ => destruct v; try discriminate H
    end.
  repeat match goal with H : Ret _ = Ret _ |- _ => injection H as <- end.
  match goal with H1 : path _ _ = Ret (VStr ?a), H2 : path _ _ = Ret (VStr ?b) |- _ =>
    rewrite H1 in H2; injection H2 as <- end.
  eauto 10.
Qed.

Lemma fetchFromWttr_Ret (net : request → reply) (city : string) (r : report) :
  settled (fetchFromWttr net city) = Ret r →
  ∃ n t h text,
    r = {| name := n;
           main := {| temp := JsNum.round t; humidity := VNum h |};
           weather := [ {| description := Text (toLowerCase text);
                           icon := getWeatherIconFromDescription (toLowerCase text) |} ] |}.
Proof.
  unfold fetchFromWttr. intros Hr. unwind.
  unfold call_toLowerCase in *.
  repeat match goal with
    | H : match ?v with _ => _ end = Ret _ |- _ => destruct v; try discriminate H
    end.
  repeat match goal with H : Ret _ = Ret _ |- _ => injection H as <- end.
  match goal with H1 : path _ _ = Ret (VStr ?a), H2 : path _ _ = Ret (VStr ?b) |- _ =>
    rewrite H1 in H2; injection H2 as <- end.
  eauto 10.
Qed.

Lemma fetchFromOpenMeteo_Ret (net : request → reply) (city : string) (r : report) :
  settled (fetchFromOpenMeteo net city) = Ret r →
  ∃ n t code text icon_,
    getWeatherDescription code = Ret text ∧
    getWeatherIconFromCode code = Ret icon_ ∧
    r = {| name := n;
           main := {| temp := JsNum.round t; humidity := VNum (of_Z 65) |};
           weather := [ {| description := text; icon := icon_ |} ] |}.
Proof.
  unfold fetchFromOpenMeteo. intros Hr. unwind.
  match goal with
  | H1 : get ?c "weathercode" = Ret ?a, H2 : get ?c "weathercode" = Ret ?b |- _ =>
      rewrite H1 in H2; injection H2 as <-
  end.
  eauto 10.
Qed.

Lemma getWeatherIconFromDescription_range (description : string) :
  In (getWeatherIconFromDescription description) ["01d"; "03d"; "10d"; "11d"; "13d"; "50d"].
Proof.
  unfold getWeatherIconFromDescription.
  repeat match goal with
    | |- context [if ?b then _ else _] => destruct b
    end; simpl; tauto.
Qed.

Lemma getWeatherIconFromCode_range (code : value) (icon_ : string) :
  getWeatherIconFromCode code = Ret icon_ →
  In icon_ ["01d"; "02d"; "50d"; "09d"; "10d"; "13d"; "11d"].
Proof.
  unfold getWeatherIconFromCode.
  destruct (strict_equals code 0); [intros [= <-]; simpl; tauto|].
  intros (n & _ & Hn)%outcome_bind_Ret. revert Hn.
  repeat match goal with
    | |- context [if ?b then _ else _] => destruct b
    end; intros [= <-]; simpl; tauto.
Qed.

(** X3. A report of adapter A or of adapter C has a temperature that is
    already rounded and exactly one weather item; its description is a text
    in lower case and its icon is the keyword icon of that very text. *)
Theorem keyword_adapter_report (net : request → reply) (city : string) (r : report) :
  settled (fetchFromWeatherAPI net city) = Ret r ∨
  settled (fetchFromWttr net city) = Ret r →
  JsNum.round (temp (main r)) = temp (main r) ∧
  ∃ text,
    toLowerCase text = text ∧
    weather r = [ {| description := Text text;
                     icon := getWeatherIconFromDescription text |} ].
Proof.
  intros [(n & t & h & text & ->)%fetchFromWeatherAPI_Ret
         |(n & t & h & text & ->)%fetchFromWttr_Ret]; simpl;
    (split; [apply round_round|]);
    exists (toLowerCase text); (split; [apply toLowerCase_idempotent|reflexivity]).
Qed.

(** X4. A report of adapter B always carries the humidity 65, whatever the
    provider answered; its temperature is already rounded, and it has exactly
    one weather item, whose description and icon come from one and the same
    weather code, the icon being one of the seven of the bucket rule. *)
Theorem code_adapter_report (net : request → reply) (city : string) (r : report) :
  settled (fetchFromOpenMeteo net city) = Ret r →
  humidity (main r) = VNum (of_Z 65) ∧
  JsNum.round (temp (main r)) = temp (main r) ∧
  ∃ code text icon_,
    getWeatherDescription code = Ret text ∧
    getWeatherIconFromCode code = Ret icon_ ∧
    In icon_ ["01d"; "02d"; "50d"; "09d"; "10d"; "13d"; "11d"] ∧
    weather r = [ {| description := text; icon := icon_ |} ].
Proof.
  intros (n & t & code & text & icon_ & Htext & Hicon & ->)%fetchFromOpenMeteo_Ret.
  simpl. split; [reflexivity|]. split; [apply round_round|].
  exists code, text, icon_. repeat split; try assumption.
  now apply getWeatherIconFromCode_range with code.
Qed.

Lemma adapter_icon_in_table (net : request → reply) (city : string) (r : report) :
  settled (fetchFromWeatherAPI net city) = Ret r ∨
  settled (fetchFromOpenMeteo net city) = Ret r ∨
  settled (fetchFromWttr net city) = Ret r →
  ∃ item units,
    weather r = [item] ∧ icon item ≠ "" ∧
    weatherIcons_at (icon item) = Some (CodeUnits units).
Proof.
  assert (∀ i, In i ["01d"; "02d"; "03d"; "50d"; "09d"; "10d"; "13d"; "11d"] →
               i ≠ "" ∧ ∃ units, weatherIcons_at i = Some (CodeUnits units)) as Hglyph.
  { intros i Hin. simpl in Hin.
    repeat (destruct Hin as [<-|Hin]; [split; [discriminate|eexists; reflexivity]|]).
    destruct Hin. }
  intros [(n & t & h & text & ->)%fetchFromWeatherAPI_Ret
         |[(n & t & code & text & icon_ & _ & Hicon & ->)%fetchFromOpenMeteo_Ret
          |(n & t & h & text & ->)%fetchFromWttr_Ret]]; simpl.
  - destruct (Hglyph (getWeatherIconFromDescription (toLowerCase text))) as (Hne & units & Hu).
    { pose proof (getWeatherIconFromDescription_range (toLowerCase text)) as Hin.
      simpl in Hin |- *. tauto. }
    eexists _, units. split; [reflexivity|]. split; assumption.
  - destruct (Hglyph icon_) as (Hne & units & Hu).
    { pose proof (getWeatherIconFromCode_range code icon_ Hicon) as Hin.
      simpl in Hin |- *. tauto. }
    eexists _, units. split; [reflexivity|]. split; assumption.
  - destruct (Hglyph (getWeatherIconFromDescription (toLowerCase text))) as (Hne & units & Hu).
    { pose proof (getWeatherIconFromDescription_range (toLowerCase text)) as Hin.
      simpl in Hin |- *. tauto. }
    eexists _, units. split; [reflexivity|]. split; assumption.
Qed.

End AdapterReports.

(** ** What the adapters send *)


Section AdapterRequests.
Context `{Runtime}.







End AdapterRequests.

(** ** How a call ends and what it leaves *)

Lemma Promise_any_cases {A} (o : settle_order) (p0 p1 p2 : outcome A) :
  match Promise_any (indices o) [p0; p1; p2] with
  | Ret a => p0 = Ret a ∨ p1 = Ret a ∨ p2 = Ret a
  | Throw _ => ∃ e0 e1 e2, p0 = Throw e0 ∧ p1 = Throw e1 ∧ p2 = Throw e2
  | Never =>
      (∀ a, p0 ≠ Ret a ∧ p1 ≠ Ret a ∧ p2 ≠ Ret a) ∧
      (p0 = Never ∨ p1 = Never ∨ p2 = Never)
  end.
Proof.
  destruct o, p0 as [a0|e0|], p1 as [a1|e1|], p2 as [a2|e2|]; cbn;
    try (split; [intros a; repeat split; discriminate|]); eauto 10.
Qed.

Lemma cacheKey_idempotent (city : string) : cacheKey (cacheKey city) = cacheKey city.
Proof.
  unfold cacheKey.
  now rewrite toLowerCase_trim, trim_idempotent, toLowerCase_idempotent.
Qed.

Section CallProperties.
Context `{Runtime}.

Lemma fresh_or_stale (w : world) (cache : gmap string cache_entry) (city : string) :
  (∃ cached, cache !! trim (toLowerCase city) = Some cached ∧
             now_on_call w - timestamp cached < CACHE_DURATION) ∨
  stale_or_absent w cache city.
Proof.
  unfold stale_or_absent.
  destruct (cache !! trim (toLowerCase city)) as [cached|]; [|right; discriminate].
  destruct (Z.lt_ge_cases (now_on_call w - timestamp cached) CACHE_DURATION);
    [left; eauto|right; now intros ? [= <-]].
Qed.



(** X8. A call ends in one of three ways only. It returns a report that is
    either the one of a fresh cache entry or the one of an adapter that
    succeeded. It is rejected only when the adapters were run and all three
    were rejected, and then with the one error "Unable to fetch weather data
    from any source". It stays pending for ever only when the adapters were
    run, none succeeded and at least one never settled. *)
Theorem how_a_call_ends (w : world) (cache : gmap string cache_entry) (city : string) :
  let ps := settled <$> promises (net w) city in
  match returned (fetchWeatherData w cache city) with
  | Ret r =>
      (∃ cached, cache !! trim (toLowerCase city) = Some cached ∧
                 now_on_call w - timestamp cached < CACHE_DURATION ∧ data cached = r) ∨
      (stale_or_absent w cache city ∧ ∃ i, ps !! i = Some (Ret r))
  | Throw e =>
      e = Error "Unable to fetch weather data from any source" ∧
      stale_or_absent w cache city ∧
      ∃ eA eB eC, ps = [Throw eA; Throw eB; Throw eC]
  | Never =>
      stale_or_absent w cache city ∧
      (∀ i r, ps !! i ≠ Some (Ret r)) ∧
      ∃ i, ps !! i = Some Never
  end.
Proof.
  intros ps. subst ps. rewrite settled_promises.
  destruct (fresh_or_stale w cache city) as [(cached & Hc & Hage)|Hs].
  - rewrite (fresh_runs_nothing _ _ _ _ Hc Hage). cbn. left. eauto.
  - rewrite (stale_runs_race _ _ _ Hs). unfold race. rewrite settled_promises.
    pose proof (Promise_any_cases (order w)
                  (settled (fetchFromWeatherAPI (net w) city))
                  (settled (fetchFromOpenMeteo (net w) city))
                  (settled (fetchFromWttr (net w) city))) as Hany.
    destruct (Promise_any _ _) as [r|e|]; cbn.
    + right. split; [exact Hs|].
      destruct Hany as [->|[->| ->]];
        [exists 0%nat|exists 1%nat|exists 2%nat]; reflexivity.
    + destruct Hany as (e0 & e1 & e2 & -> & -> & ->). eauto 10.
    + destruct Hany as (Hnone & Hnever). split; [exact Hs|]. split.
      * intros [|[|[|i]]] r; cbn; try discriminate;
          intros [= Hr]; now destruct (Hnone r) as (? & ? & ?).
      * destruct Hnever as [->|[->| ->]];
          [exists 0%nat|exists 1%nat|exists 2%nat]; reflexivity.
Qed.

(** X9. The cache never loses an entry and grows by one entry at most in a
    call; it is changed only by a call that returns a report. *)
Theorem cache_only_grows (w : world) (cache : gmap string cache_entry) (city : string) :
  let after := WEATHER_CACHE (fetchWeatherData w cache city) in
  (∀ key, is_Some (cache !! key) → is_Some (after !! key)) ∧
  (size cache ≤ size after ≤ S (size cache))%nat ∧
  ((∀ r, returned (fetchWeatherData w cache city) ≠ Ret r) → after = cache).
Proof.
  intros after. subst after.
  destruct (fresh_or_stale w cache city) as [(cached & Hc & Hage)|Hs].
  - rewrite (fresh_runs_nothing _ _ _ _ Hc Hage). cbn.
    repeat split; [auto|lia|lia].
  - rewrite (stale_runs_race _ _ _ Hs). unfold race.
    destruct (Promise_any _ _) as [r|e|]; cbn; try (repeat split; [auto|lia|lia]).
    split; [|split].
    + intros key Hkey. apply lookup_insert_is_Some.
      destruct (decide (cacheKey city = key)); [now left|now right].
    + rewrite map_size_insert. destruct (cache !! cacheKey city); simpl; lia.
    + intros Hno. now destruct (Hno r).
Qed.

(** X10. Every key of the cache is a normal form, lower-cased and trimmed:
    a cache of which this is true, as the empty one the page starts with,
    stays so after every call. *)
Theorem cache_keys_normalised (w : world) (cache : gmap string cache_entry) (city : string) :
  (∀ key, is_Some (cache !! key) → cacheKey key = key) →
  ∀ key, is_Some (WEATHER_CACHE (fetchWeatherData w cache city) !! key) →
         cacheKey key = key.
Proof.
  intros Hinv key.
  destruct (decide (key = cacheKey city)) as [->|Hne].
  - intros _. apply cacheKey_idempotent.
  - assert (WEATHER_CACHE (fetchWeatherData w cache city) !! key = cache !! key) as ->.
    { unfold fetchWeatherData.
      assert (WEATHER_CACHE (race w cache city) !! key = cache !! key) as Hrace.
      { unfold race. destruct (Promise_any _ _); cbn; [|reflexivity..].
        now apply lookup_insert_ne. }
      destruct (cache !! cacheKey city) as [cached|]; [|exact Hrace].
      destruct (Z.ltb _ _); [reflexivity|exact Hrace]. }
    apply Hinv.
Qed.

End CallProperties.

Example open_meteo_fixture :
  @fetchFromOpenMeteo integer_runtime only_open_meteo "Paris" =
  Async (Ret open_meteo_report) [OpenMeteo_search "Paris"; OpenMeteo_forecast "48" "2"].
Proof. reflexivity. Qed.

(** ** The page *)

Section PageProperties.
Context `{Runtime}.

Lemma displayWeatherData_returns (data : report) (p : page) :
  snd (displayWeatherData data p) = Ret tt ↔
  (∃ percent, ToString (humidity (main data)) = Ret percent) ∧
  ∃ first rest str, weather data = first :: rest ∧ description first = Text str.
Proof.
  unfold displayWeatherData.
  destruct (ToString (humidity (main data))) as [percent|e|]; cbn.
  - destruct (weather data) as [|first rest]; cbn.
    + split; [discriminate|]. intros (_ & ? & ? & ? & ? & _). discriminate.
    + destruct (description first) as [str|key] eqn:Hd; cbn.
      * split; [eauto 10|reflexivity].
      * split; [discriminate|].
        intros (_ & ? & ? & ? & [= <- <-] & ?). congruence.
  - split; [discriminate|]. intros ([? ?] & _). discriminate.
  - split; [discriminate|]. intros ([? ?] & _). discriminate.
Qed.

Lemma displayWeatherData_throws (data : report) (p : page) :
  snd (displayWeatherData data p) = Ret tt ∨
  snd (displayWeatherData data p) = Throw TypeError.
Proof.
  unfold displayWeatherData.
  destruct (ToString_outcome (humidity (main data))) as [[percent ->]| ->]; cbn; [|now right].
  destruct (weather data) as [|first rest]; cbn; [now right|].
  destruct (description first); cbn; [now left|now right].
Qed.

(** X11. [displayWeatherData] returns or throws a TypeError, and it throws
    in two cases only: the humidity cannot be converted to a string, or the
    description is not a text. A report of adapter C is therefore always
    displayed, a report of adapter B whenever its description is a text, and
    a report of adapter A whenever its humidity converts to a string. *)
Theorem display_of_adapter_reports (net : request → reply) (city : string)
    (r : report) (p : page) :
  (snd (displayWeatherData r p) = Ret tt ∨
   snd (displayWeatherData r p) = Throw TypeError) ∧
  (settled (fetchFromWttr net city) = Ret r → snd (displayWeatherData r p) = Ret tt) ∧
  (settled (fetchFromOpenMeteo net city) = Ret r →
     snd (displayWeatherData r p) = Ret tt ↔
     ∃ item str, weather r = [item] ∧ description item = Text str) ∧
  (settled (fetchFromWeatherAPI net city) = Ret r →
     snd (displayWeatherData r p) = Ret tt ↔
     ∃ percent, ToString (humidity (main r)) = Ret percent).
Proof.
  split; [apply displayWeatherData_throws|]. split; [|split].
  - intros (n & t & h & text & ->)%fetchFromWttr_Ret.
    apply displayWeatherData_returns. cbn. eauto 10.
  - intros (n & t & code & text & icon_ & _ & _ & ->)%fetchFromOpenMeteo_Ret.
    rewrite displayWeatherData_returns. cbn. split.
    + intros (_ & first & rest & str & [= <- <-] & Hd). eauto.
    + intros (item & str & [= <-] & Hd). eauto 10.
  - intros (n & t & h & text & ->)%fetchFromWeatherAPI_Ret.
    rewrite displayWeatherData_returns. cbn. split; [tauto|]. eauto 10.
Qed.

Lemma in_weather_elements (P : El.id → Prop) :
  P El.cityName → P El.temperature → P El.humidity → P El.condition →
  P El.weatherIcon → ∀ i, In i weather_elements → P i.
Proof.
  intros ? ? ? ? ? i Hin. simpl in Hin.
  repeat (destruct Hin as [<-|Hin]; [assumption|]). destruct Hin.
Qed.

Lemma showMessage_page (msg : string) (p : page) :
  message_shown msg (showMessage msg p) ∧
  searchBtn_disabled (showMessage msg p) = searchBtn_disabled p ∧
  searchBtn_textContent (showMessage msg p) = searchBtn_textContent p ∧
  weatherCard_classList (showMessage msg p) = weatherCard_classList p ∧
  cityInput_value (showMessage msg p) = cityInput_value p.
Proof.
  repeat split. apply in_weather_elements; reflexivity.
Qed.

Ltac class_solver :=
  cbn; rewrite ?elem_of_union, ?elem_of_difference, ?elem_of_singleton;
  intuition congruence.

Lemma showLoading_page (p : page) :
  message_shown "Fetching weather data..." (showLoading p) ∧
  searchBtn_disabled (showLoading p) = true ∧
  searchBtn_textContent (showLoading p) = "Loading..." ∧
  ("loading" ∈ weatherCard_classList (showLoading p)) ∧
  cityInput_value (showLoading p) = cityInput_value p ∧
  console (showLoading p) = console p ∧
  timeouts (showLoading p) = timeouts p.
Proof.
  repeat split; [apply in_weather_elements; reflexivity|].
  class_solver.
Qed.

Lemma showError_page (msg : string) (p : page) :
  message_shown msg (showError msg p) ∧
  searchBtn_disabled (showError msg p) = false ∧
  searchBtn_textContent (showError msg p) = "Get Weather" ∧
  ("loading" ∉ weatherCard_classList (showError msg p)) ∧
  ("error" ∈ weatherCard_classList (showError msg p)) ∧
  cityInput_value (showError msg p) = cityInput_value p ∧
  console (showError msg p) = console p ∧
  timeouts (showError msg p) = (timeouts p ++ [3000])%list.
Proof.
  repeat split; [apply in_weather_elements; reflexivity|..]; class_solver.
Qed.

Lemma displayWeatherData_page (data : report) (p : page) :
  let after := fst (displayWeatherData data p) in
  console after = console p ∧ timeouts after = timeouts p ∧
  ( snd (displayWeatherData data p) = Ret tt →
    report_shown after ∧
    textContent (elements after El.cityName) = Plain (name data) ∧
    searchBtn_disabled after = false ∧
    searchBtn_textContent after = "Get Weather" ∧
    ("loading" ∉ weatherCard_classList after) ∧
    ("error" ∉ weatherCard_classList after) ∧
    cityInput_value after = "" ) ∧
  ( snd (displayWeatherData data p) ≠ Ret tt →
    cityInput_value after = cityInput_value p ).
Proof.
  unfold displayWeatherData.
  destruct (ToString (humidity (main data))) as [percent|e|]; cbn;
    [|repeat split; (discriminate || congruence)..].
  destruct (weather data) as [|first rest]; cbn;
    [repeat split; (discriminate || congruence)|].
  destruct (description first) as [str|key]; cbn;
    [|repeat split; (discriminate || congruence)].
  repeat split; try (apply in_weather_elements; reflexivity); class_solver.
Qed.

(** What [displayWeatherData] does to the weatherIcon element, for a report
    whose icon key is not empty and has an entry in [weatherIcons]. *)
Lemma displayWeatherData_icon (data : report) (p : page) (item : weather_t)
    (rest : list weather_t) (glyph : text) :
  weather data = item :: rest → icon item ≠ "" →
  weatherIcons_at (icon item) = Some glyph →
  let after := fst (displayWeatherData data p) in
  ( snd (displayWeatherData data p) = Ret tt →
    textContent (elements after El.weatherIcon) = glyph ∧
    display (elements after El.weatherIcon) = "block" ) ∧
  ( snd (displayWeatherData data p) ≠ Ret tt →
    elements after El.weatherIcon = elements p El.weatherIcon ).
Proof.
  intros Hw Hne Hglyph. unfold displayWeatherData. rewrite Hw.
  destruct (ToString (humidity (main data))) as [percent|e|]; cbn;
    [|split; [discriminate|reflexivity]..].
  destruct (description item) as [str|key]; cbn;
    [|split; [discriminate|reflexivity]].
  apply String.eqb_neq in Hne. rewrite Hne, Hglyph. cbn.
  split; [split; reflexivity|]. intros Hthrown. now destruct Hthrown.
Qed.

(** X5. Whatever adapter a report comes from, the icon key of its weather
    item is not empty and is a key of [weatherIcons] with a glyph of its
    own. So [displayWeatherData], when it returns on such a report, shows in
    the weatherIcon element the glyph that the table has for the key: the
    lookup never falls through to the glyph after [||], nor to a member
    inherited from Object.prototype. When [displayWeatherData] throws
    instead (X11), it does so before the icon line and the weatherIcon
    element is left as it was. *)
Theorem adapter_icon_has_glyph (net : request → reply) (city : string) (r : report)
    (p : page) :
  settled (fetchFromWeatherAPI net city) = Ret r ∨
  settled (fetchFromOpenMeteo net city) = Ret r ∨
  settled (fetchFromWttr net city) = Ret r →
  ∃ item units,
    weather r = [item] ∧ icon item ≠ "" ∧
    weatherIcons_at (icon item) = Some (CodeUnits units) ∧
    ( snd (displayWeatherData r p) = Ret tt →
      textContent (elements (fst (displayWeatherData r p)) El.weatherIcon) = CodeUnits units ∧
      display (elements (fst (displayWeatherData r p)) El.weatherIcon) = "block" ) ∧
    ( snd (displayWeatherData r p) ≠ Ret tt →
      elements (fst (displayWeatherData r p)) El.weatherIcon = elements p El.weatherIcon ).
Proof.
  intros (item & units & Hw & Hne & Hglyph)%adapter_icon_in_table.
  exists item, units. split_and!; try assumption;
    apply (displayWeatherData_icon r p item [] (CodeUnits units) Hw Hne Hglyph).
Qed.

Lemma handleSearch_blank (w : world) (cache : gmap string cache_entry) (p : page) :
  trim (cityInput_value p) = "" →
  handleSearch w cache p =
    {| shown := showMessage "Please enter a city name" p;
       kept := cache; asked := []; ended := true |}.
Proof. intros Hblank. unfold handleSearch. now rewrite Hblank. Qed.

Lemma handleSearch_fetches (w : world) (cache : gmap string cache_entry) (p : page) :
  trim (cityInput_value p) ≠ "" →
  kept (handleSearch w cache p) =
    WEATHER_CACHE (fetchWeatherData w cache (trim (cityInput_value p))) ∧
  asked (handleSearch w cache p) =
    sent (fetchWeatherData w cache (trim (cityInput_value p))).
Proof.
  intros Hcity. unfold handleSearch.
  destruct (String.eqb_spec (trim (cityInput_value p)) ""); [contradiction|].
  destruct (returned _); [destruct (displayWeatherData _ _) as [q [[]| |]]|..];
    split; reflexivity.
Qed.

(** X12. A search on an input that is empty or blank sends no request and
    leaves the cache, the button and the classes of the card as they are: it
    shows "Please enter a city name" and hides the five weather elements. *)
Theorem blank_search (w : world) (cache : gmap string cache_entry) (p : page) :
  trim (cityInput_value p) = "" →
  let s := handleSearch w cache p in
  asked s = [] ∧ kept s = cache ∧ ended s = true ∧
  message_shown "Please enter a city name" (shown s) ∧
  searchBtn_disabled (shown s) = searchBtn_disabled p ∧
  searchBtn_textContent (shown s) = searchBtn_textContent p ∧
  weatherCard_classList (shown s) = weatherCard_classList p ∧
  cityInput_value (shown s) = cityInput_value p.
Proof.
  intros Hblank s. subst s. rewrite (handleSearch_blank _ _ _ Hblank).
  cbn [asked kept ended shown].
  pose proof (showMessage_page "Please enter a city name" p) as ((? & ? & ?) & ? & ? & ? & ?).
  repeat split; assumption.
Qed.

(** X13. When a search on a non-blank input comes to its end, the button is
    enabled again with its label "Get Weather" and the card is no longer
    loading, and the card shows one of two things. Either the report the
    call returned, with the message hidden, the five elements displayed, no
    error class and the input cleared; or the one fixed error message, with
    the five elements hidden, the error class set, the input kept, the error
    logged and a timer of three seconds set. It never shows a report and the
    error message together, also when displaying the report threw half way. *)
Theorem finished_search (w : world) (cache : gmap string cache_entry) (p : page) :
  let s := handleSearch w cache p in
  trim (cityInput_value p) ≠ "" → ended s = true →
  searchBtn_disabled (shown s) = false ∧
  searchBtn_textContent (shown s) = "Get Weather" ∧
  ("loading" ∉ weatherCard_classList (shown s)) ∧
  ( (∃ r, returned (fetchWeatherData w cache (trim (cityInput_value p))) = Ret r ∧
          report_shown (shown s) ∧
          textContent (elements (shown s) El.cityName) = Plain (name r) ∧
          ("error" ∉ weatherCard_classList (shown s)) ∧
          cityInput_value (shown s) = "" ∧
          console (shown s) = console p ∧
          timeouts (shown s) = timeouts p)
    ∨
    (∃ e, message_shown "City not found or network error. Please try again." (shown s) ∧
          ("error" ∈ weatherCard_classList (shown s)) ∧
          cityInput_value (shown s) = cityInput_value p ∧
          console (shown s) = (console p ++ [e])%list ∧
          timeouts (shown s) = (timeouts p ++ [3000])%list) ).
Proof.
  intros s Hcity. subst s. unfold handleSearch.
  destruct (String.eqb_spec (trim (cityInput_value p)) ""); [contradiction|].
  pose proof (showLoading_page p) as (_ & _ & _ & _ & Hin & Hcon & Htime).
  remember (showLoading p) as loading eqn:Hl. clear Hl.
  assert (∀ q e,
    cityInput_value q = cityInput_value p → console q = console p →
    timeouts q = timeouts p →
    let failed :=
      console_error e (showError "City not found or network error. Please try again." q) in
    searchBtn_disabled failed = false ∧
    searchBtn_textContent failed = "Get Weather" ∧
    ("loading" ∉ weatherCard_classList failed) ∧
    message_shown "City not found or network error. Please try again." failed ∧
    ("error" ∈ weatherCard_classList failed) ∧
    cityInput_value failed = cityInput_value p ∧
    console failed = (console p ++ [e])%list ∧
    timeouts failed = (timeouts p ++ [3000])%list) as Hfailed.
  { intros q e Hi Hc Ht failed. subst failed.
    pose proof (showError_page "City not found or network error. Please try again." q)
      as (Hm & Hb & Hbt & Hnl & He & Hi' & Hc' & Ht').
    remember (showError _ q) as failed eqn:Hf. clear Hf.
    unfold message_shown in *.
    cbn [console_error elements weatherCard_classList cityInput_value console timeouts
         searchBtn_disabled searchBtn_textContent].
    rewrite Hi', Hc', Ht', Hi, Hc, Ht.
    split_and!; [exact Hb|exact Hbt|exact Hnl|apply Hm|apply Hm|apply Hm|exact He
                |reflexivity..]. }
  destruct (returned _) as [r|e|] eqn:Hret; [|cbn [ended shown]..].
  - pose proof (displayWeatherData_page r loading) as (Hc & Ht & Hok & Hko).
    destruct (displayWeatherData r loading) as [q [[]|e|]] eqn:Hd;
      cbn [fst snd ended shown] in *.
    + intros _. destruct (Hok eq_refl) as (Hshown & Hname & Hb & Hbt & Hnl & Hne & Hi).
      split_and!; [exact Hb|exact Hbt|exact Hnl|]. left. exists r.
      split_and!; [reflexivity|exact Hshown|exact Hname|exact Hne|exact Hi|..]; congruence.
    + intros _.
      destruct (Hfailed q e) as (Hb & Hbt & Hnl & Hrest); [|congruence..|].
      { rewrite Hko by discriminate. exact Hin. }
      split_and!; [exact Hb|exact Hbt|exact Hnl|]. right. exists e. exact Hrest.
    + discriminate.
  - intros _.
    destruct (Hfailed loading e Hin Hcon Htime) as (Hb & Hbt & Hnl & Hrest).
    split_and!; [exact Hb|exact Hbt|exact Hnl|]. right. exists e. exact Hrest.
  - discriminate.
Qed.

(** X14. A search stays unfinished exactly when its input is not blank and
    the call never settles; the page then stays as [showLoading] left it,
    with the button disabled under the label "Loading...". *)
Theorem pending_search (w : world) (cache : gmap string cache_entry) (p : page) :
  let s := handleSearch w cache p in
  ( ended s = false ↔
    trim (cityInput_value p) ≠ "" ∧
    returned (fetchWeatherData w cache (trim (cityInput_value p))) = Never ) ∧
  ( ended s = false →
    searchBtn_disabled (shown s) = true ∧
    searchBtn_textContent (shown s) = "Loading..." ∧
    ("loading" ∈ weatherCard_classList (shown s)) ∧
    message_shown "Fetching weather data..." (shown s) ).
Proof.
  intros s. subst s. unfold handleSearch.
  destruct (String.eqb_spec (trim (cityInput_value p)) "") as [Hblank|Hcity].
  { cbn. split; [split; [discriminate|tauto]|discriminate]. }
  pose proof (showLoading_page p) as (? & ? & ? & ? & _).
  destruct (returned _) as [r|e|] eqn:Hret.
  - pose proof (displayWeatherData_throws r (showLoading p)) as Hd.
    destruct (displayWeatherData r (showLoading p)) as [q [[]|e|]]; cbn in *.
    + split; [split; [discriminate|intros [_ [=]]]|discriminate].
    + split; [split; [discriminate|intros [_ [=]]]|discriminate].
    + destruct Hd; discriminate.
  - cbn. split; [split; [discriminate|intros [_ [=]]]|discriminate].
  - cbn [ended shown]. split; [tauto|]. intros _. split_and!; assumption.
Qed.

(** X15. A search reads and writes the cache under the normal form of what
    is in the input field: no entry under another key is changed, and when
    the entry under that key is fresh the search sends no request and leaves
    the cache as it is. *)
Theorem search_and_cache (w : world) (cache : gmap string cache_entry) (p : page) :
  let s := handleSearch w cache p in
  (∀ key, key ≠ cacheKey (cityInput_value p) → kept s !! key = cache !! key) ∧
  (∀ cached, cache !! cacheKey (cityInput_value p) = Some cached →
             now_on_call w - timestamp cached < CACHE_DURATION →
             asked s = [] ∧ kept s = cache).
Proof.
  intros s. subst s.
  assert (cacheKey (trim (cityInput_value p)) = cacheKey (cityInput_value p)) as Hkey.
  { unfold cacheKey. now rewrite toLowerCase_trim, trim_idempotent. }
  destruct (String.eqb_spec (trim (cityInput_value p)) "") as [Hblank|Hcity].
  { rewrite (handleSearch_blank _ _ _ Hblank). cbn. auto. }
  destruct (handleSearch_fetches w cache p Hcity) as [-> ->]. split.
  - intros key Hne. rewrite <- Hkey in Hne.
    unfold fetchWeatherData.
    assert (WEATHER_CACHE (race w cache (trim (cityInput_value p))) !! key = cache !! key)
      as Hrace.
    { unfold race. destruct (Promise_any _ _); cbn; [|reflexivity..].
      now apply lookup_insert_ne. }
    destruct (cache !! cacheKey (trim (cityInput_value p))) as [cached|]; [|exact Hrace].
    destruct (Z.ltb _ _); [reflexivity|exact Hrace].
  - intros cached Hc Hage. rewrite <- Hkey in Hc.
    now rewrite (fresh_runs_nothing _ _ _ _ Hc Hage).
Qed.


End PageProperties.

(** ** Instances of the properties above *)

Lemma keyword_adapter_report_witness :
  JsNum.round (temp (main paris_report)) = temp (main paris_report) ∧
  ∃ text,
    toLowerCase text = text ∧
    weather paris_report =
      [ {| description := Text text; icon := getWeatherIconFromDescription text |} ].
Proof.
  apply (@keyword_adapter_report integer_runtime (only_wttr paris_body) "Paris" paris_report).
  right. reflexivity.
Defined.

Lemma code_adapter_report_witness :
  humidity (main open_meteo_report) = VNum (of_Z 65).
Proof.
  apply (@code_adapter_report integer_runtime only_open_meteo "Paris" open_meteo_report).
  reflexivity.
Defined.

Lemma adapter_icon_has_glyph_witness :
  ∃ item units,
    weather open_meteo_report = [item] ∧ icon item ≠ "" ∧
    weatherIcons_at (icon item) = Some (CodeUnits units) ∧
    ( snd (@displayWeatherData integer_runtime open_meteo_report paris_page) = Ret tt →
      textContent (elements (fst (@displayWeatherData integer_runtime open_meteo_report
                                    paris_page)) El.weatherIcon) = CodeUnits units ∧
      display (elements (fst (@displayWeatherData integer_runtime open_meteo_report
                                paris_page)) El.weatherIcon) = "block" ) ∧
    ( snd (@displayWeatherData integer_runtime open_meteo_report paris_page) ≠ Ret tt →
      elements (fst (@displayWeatherData integer_runtime open_meteo_report paris_page))
        El.weatherIcon = elements paris_page El.weatherIcon ).
Proof.
  apply (@adapter_icon_has_glyph integer_runtime only_open_meteo "Paris" open_meteo_report
           paris_page).
  right. left. reflexivity.
Defined.

(** The rain glyph on the page, for the report of the Open-Meteo fixture. *)
Example open_meteo_report_glyph :
  textContent (elements (fst (@displayWeatherData integer_runtime open_meteo_report
                                paris_page)) El.weatherIcon) =
  CodeUnits [0xD83C; 0xDF26; 0xFE0F]%N.
Proof. reflexivity. Qed.



Lemma cache_only_grows_witness :
  WEATHER_CACHE (@fetchWeatherData integer_runtime offline_world ∅ "Paris") = ∅.
Proof.
  apply (@cache_only_grows integer_runtime offline_world ∅ "Paris").
  intros r. discriminate.
Defined.

Lemma cache_keys_normalised_witness : cacheKey "paris" = "paris".
Proof.
  apply (@cache_keys_normalised integer_runtime wttr_world ∅ " Paris ").
  - intros key [entry Hentry]. rewrite lookup_empty in Hentry. discriminate.
  - exists {| data := paris_report; timestamp := 1250 |}.
    apply (lookup_insert_eq (M := gmap string)).
Defined.

Lemma display_of_adapter_reports_witness :
  snd (@displayWeatherData integer_runtime paris_report paris_page) = Ret tt.
Proof.
  apply (proj1 (proj2 (@display_of_adapter_reports integer_runtime (only_wttr paris_body)
                         "Paris" paris_report paris_page))).
  reflexivity.
Defined.

Lemma blank_search_witness :
  asked (@handleSearch integer_runtime wttr_world ∅ (set_cityInput_value "   " blank_page)) = [].
Proof.
  apply (@blank_search integer_runtime wttr_world ∅ (set_cityInput_value "   " blank_page)).
  reflexivity.
Defined.

Lemma finished_search_witness :
  searchBtn_disabled (shown (@handleSearch integer_runtime wttr_world ∅ paris_page)) = false.
Proof.
  apply (@finished_search integer_runtime wttr_world ∅ paris_page).
  - discriminate.
  - reflexivity.
Defined.

Lemma pending_search_witness :
  searchBtn_disabled (shown (@handleSearch integer_runtime silent_world ∅ paris_page)) = true.
Proof.
  apply (proj2 (@pending_search integer_runtime silent_world ∅ paris_page)).
  reflexivity.
Defined.

Lemma search_and_cache_witness :
  kept (@handleSearch integer_runtime wttr_world ∅ paris_page) !! "london" =
  (∅ : gmap string cache_entry) !! "london".
Proof.
  apply (@search_and_cache integer_runtime wttr_world ∅ paris_page).
  discriminate.
Defined.

(** ** Searches come to an end *)

Lemma outcome_bind_settles {A B} (m : outcome A) (k : A → outcome B) :
  m ≠ Never → (∀ a, k a ≠ Never) → m ≫= k ≠ Never.
Proof. destruct m; simpl; [auto|discriminate|congruence]. Qed.

Lemma settled_bind_settles {A B} (m : async A) (k : A → async B) :
  settled m ≠ Never → (∀ a, settled m = Ret a → settled (k a) ≠ Never) →
  settled (m ≫= k) ≠ Never.
Proof.
  unfold mbind, async_bind, abind.
  destruct (settled m) as [a| |]; simpl;
    [intros _ Hk; exact (Hk a eq_refl)|discriminate|congruence].
Qed.

Section Liveness.
Context `{Runtime}.

Lemma ToString_settles (v : value) : ToString v ≠ Never.
Proof. destruct (ToString_outcome v) as [[s ->]| ->]; discriminate. Qed.

Lemma get_settles (v : value) (k : string) : get v k ≠ Never.
Proof.
  destruct v; simpl; try discriminate;
    repeat match goal with
      | |- context [if ?b then _ else _] => destruct b
      end; discriminate.
Qed.

Lemma path_settles (ks : list string) (v : value) : path v ks ≠ Never.
Proof.
  revert v. induction ks as [|k ks IH]; intros v; simpl; [discriminate|].
  apply outcome_bind_settles; [apply get_settles|apply IH].
Qed.

Lemma ToNumber_settles (v : value) : ToNumber v ≠ Never.
Proof.
  unfold ToNumber. destruct v as [| |[]| | | |]; try discriminate;
    (apply outcome_bind_settles; [apply ToString_settles|discriminate]).
Qed.

Lemma parseInt_settles (v : value) : parseInt v ≠ Never.
Proof. apply outcome_bind_settles; [apply ToString_settles|discriminate]. Qed.

Lemma call_toLowerCase_settles (v : value) : call_toLowerCase v ≠ Never.
Proof. destruct v; discriminate. Qed.

Lemma getWeatherDescription_settles (code : value) : getWeatherDescription code ≠ Never.
Proof.
  unfold getWeatherDescription, descriptions_at.
  apply outcome_bind_settles; [|discriminate].
  destruct code; try discriminate;
    (apply outcome_bind_settles; [apply ToString_settles|discriminate]).
Qed.

Lemma getWeatherIconFromCode_settles (code : value) : getWeatherIconFromCode code ≠ Never.
Proof.
  unfold getWeatherIconFromCode. destruct (strict_equals code 0); [discriminate|].
  apply outcome_bind_settles; [apply ToNumber_settles|]. intros n.
  repeat match goal with
    | |- context [if ?b then _ else _] => destruct b
    end; discriminate.
Qed.

Lemma fetch_settles (net : request → reply) (r : request) :
  net r ≠ Silent → settled (fetch net r) ≠ Never.
Proof.
  unfold fetch. simpl.
  destruct (net r) as [| |ok [v|]|ok e|ok]; (discriminate || congruence).
Qed.

(** The promise of [response.json()] settles unless the body never ends. *)
Lemma json_settles (net : request → reply) (r : request) (response : bool * outcome value) :
  (∀ r ok, net r ≠ Stalled ok) →
  settled (fetch net r) = Ret response → settled (json response) ≠ Never.
Proof.
  intros Hbody. unfold fetch, json. cbn [settled].
  destruct (net r) as [| |ok [v|]|ok e|ok] eqn:Hr; try discriminate;
    try (intros [= <-]; discriminate).
  now destruct (Hbody r ok).
Qed.

Ltac settles :=
  repeat match goal with
    | |- settled (fetch _ _) ≠ Never => apply fetch_settles; solve [auto]
    | |- settled (json ?response) ≠ Never =>
        match goal with
        | Hfetch : settled (fetch ?n ?r) = Ret response |- _ =>
            apply (json_settles n r response); [assumption|exact Hfetch]
        end
    | |- settled (throw _) ≠ Never => discriminate
    | |- settled (sync _) ≠ Never => cbn [sync settled]
    | |- settled (if ?b then _ else _) ≠ Never => destruct b
    | |- settled (_ ≫= _) ≠ Never => apply settled_bind_settles; [|intros ? ?]
    | |- path _ _ ≠ Never => apply path_settles
    | |- get _ _ ≠ Never => apply get_settles
    | |- ToString _ ≠ Never => apply ToString_settles
    | |- ToNumber _ ≠ Never => apply ToNumber_settles
    | |- parseInt _ ≠ Never => apply parseInt_settles
    | |- call_toLowerCase _ ≠ Never => apply call_toLowerCase_settles
    | |- getWeatherDescription _ ≠ Never => apply getWeatherDescription_settles
    | |- getWeatherIconFromCode _ ≠ Never => apply getWeatherIconFromCode_settles
    | |- @mbind outcome _ _ _ _ _ ≠ Never => apply outcome_bind_settles; [|intros ?]
    | |- mret _ ≠ Never => discriminate
    end.

Lemma adapters_settle (net : request → reply) (city : string) :
  (∀ r, net r ≠ Silent) →
  (∀ r ok, net r ≠ Stalled ok) →
  settled (fetchFromWeatherAPI net city) ≠ Never ∧
  settled (fetchFromOpenMeteo net city) ≠ Never ∧
  settled (fetchFromWttr net city) ≠ Never.
Proof.
  intros Hnet Hbody. split; [|split].
  - unfold fetchFromWeatherAPI. settles.
  - unfold fetchFromOpenMeteo. settles.
  - unfold fetchFromWttr. settles.
Qed.

Lemma call_never (w : world) (cache : gmap string cache_entry) (city : string) :
  returned (fetchWeatherData w cache city) = Never →
  ∃ i, (settled <$> promises (net w) city) !! i = Some Never.
Proof.
  destruct (fresh_or_stale w cache city) as [(cached & Hc & Hage)|Hs].
  - rewrite (fresh_runs_nothing _ _ _ _ Hc Hage). discriminate.
  - rewrite (stale_runs_race _ _ _ Hs). unfold race. rewrite settled_promises.
    pose proof (Promise_any_cases (order w)
                  (settled (fetchFromWeatherAPI (net w) city))
                  (settled (fetchFromOpenMeteo (net w) city))
                  (settled (fetchFromWttr (net w) city))) as Hany.
    destruct (Promise_any _ _) as [r|e|]; cbn; try discriminate.
    intros _. destruct Hany as (_ & [->|[->| ->]]);
      [exists 0%nat|exists 1%nat|exists 2%nat]; reflexivity.
Qed.

Lemma console_error_button (e : error) (q : page) :
  searchBtn_disabled (console_error e q) = searchBtn_disabled q.
Proof. reflexivity. Qed.

Lemma settled_call_ends_search (w : world) (cache : gmap string cache_entry) (p : page) :
  returned (fetchWeatherData w cache (trim (cityInput_value p))) ≠ Never →
  ended (handleSearch w cache p) = true ∧
  (trim (cityInput_value p) ≠ "" →
   searchBtn_disabled (shown (handleSearch w cache p)) = false).
Proof.
  intros Hcall. unfold handleSearch.
  destruct (String.eqb_spec (trim (cityInput_value p)) "") as [Hblank|Hcity];
    [split; [reflexivity|contradiction]|].
  remember (showLoading p) as loading eqn:Hl. clear Hl.
  assert (∀ q e,
    searchBtn_disabled
      (console_error e (showError "City not found or network error. Please try again." q))
    = false) as Hfailed.
  { intros q e.
    rewrite console_error_button.
    apply (showError_page "City not found or network error. Please try again." q). }
  destruct (returned _) as [r|e|] eqn:Hret.
  - pose proof (displayWeatherData_throws r loading) as Hd.
    pose proof (displayWeatherData_page r loading) as (_ & _ & Hok & _).
    destruct (displayWeatherData r loading) as [q [[]|e|]]; cbn [fst snd] in *.
    + split; [reflexivity|intros _]. cbn [shown].
      destruct (Hok eq_refl) as (_ & _ & Hb & _). exact Hb.
    + split; [reflexivity|intros _]. cbn [shown]. apply Hfailed.
    + destruct Hd; discriminate.
  - split; [reflexivity|intros _]. cbn [shown]. apply Hfailed.
  - now destruct Hcall.
Qed.

(** X17. When no [fetch] stays pending (the network answers or refuses
    every request) and no [response.json()] stays pending (every body is read
    to its end, or reading it fails), nothing stays pending: each adapter
    settles, so does the call, and every search comes to its end, with the
    button enabled again. *)
Theorem answered_requests_end_the_search (w : world) (cache : gmap string cache_entry)
    (city : string) (p : page) :
  (∀ r, net w r ≠ Silent) →
  (∀ r ok, net w r ≠ Stalled ok) →
  settled (fetchFromWeatherAPI (net w) city) ≠ Never ∧
  settled (fetchFromOpenMeteo (net w) city) ≠ Never ∧
  settled (fetchFromWttr (net w) city) ≠ Never ∧
  returned (fetchWeatherData w cache city) ≠ Never ∧
  ended (handleSearch w cache p) = true ∧
  (trim (cityInput_value p) ≠ "" →
   searchBtn_disabled (shown (handleSearch w cache p)) = false).
Proof.
  intros Hnet Hbody.
  assert (∀ c, returned (fetchWeatherData w cache c) ≠ Never) as Hcall.
  { intros c Hret. destruct (call_never w cache c Hret) as [i Hi].
    destruct (adapters_settle (net w) c Hnet Hbody) as (HA & HB & HC).
    rewrite settled_promises in Hi.
    destruct i as [|[|[|i]]]; [injection Hi as Hi; contradiction..|discriminate Hi]. }
  destruct (adapters_settle (net w) city Hnet Hbody) as (HA & HB & HC).
  destruct (settled_call_ends_search w cache p (Hcall _)) as (Hend & Hbtn).
  split_and!; try assumption. apply Hcall.
Qed.

End Liveness.

Lemma answered_requests_end_the_search_witness :
  ended (@handleSearch integer_runtime offline_world ∅ paris_page) = true.
Proof.
  apply (@answered_requests_end_the_search integer_runtime offline_world ∅ "Paris" paris_page).
  - intros r. discriminate.
  - intros r ok. discriminate.
Defined.

(** Both hypotheses are needed. A response whose body never ends keeps
    [response.json()] pending, although every [fetch] was answered: the
    adapters stay pending, and the search never comes to its end. *)
Example stalled_bodies_keep_the_search_pending :
  (∀ r, net stalled_world r ≠ Silent) ∧
  settled (@fetchFromWeatherAPI integer_runtime (net stalled_world) "Paris") = Never ∧
  settled (@fetchFromOpenMeteo integer_runtime (net stalled_world) "Paris") = Never ∧
  settled (@fetchFromWttr integer_runtime (net stalled_world) "Paris") = Never ∧
  ended (@handleSearch integer_runtime stalled_world ∅ paris_page) = false ∧
  searchBtn_disabled (shown (@handleSearch integer_runtime stalled_world ∅ paris_page)) = true.
Proof. split; [intros r; discriminate|]. split_and!; reflexivity. Qed.

(** ** A search after a search *)

Section Repeated.
Context `{Runtime}.

Lemma returned_report_is_cached (w : world) (cache : gmap string cache_entry)
    (city : string) (r : report) :
  returned (fetchWeatherData w cache city) = Ret r →
  ∃ entry,
    WEATHER_CACHE (fetchWeatherData w cache city) !! cacheKey city = Some entry ∧
    data entry = r ∧
    (timestamp entry = now_on_resume w ∨ cache !! cacheKey city = Some entry).
Proof.
  destruct (fresh_or_stale w cache city) as [(cached & Hc & Hage)|Hs].
  - rewrite (fresh_runs_nothing _ _ _ _ Hc Hage). cbn. intros [= <-].
    exists cached. unfold cacheKey. auto.
  - rewrite (stale_runs_race _ _ _ Hs). unfold race.
    destruct (Promise_any _ _) as [r'|e|]; cbn; [|discriminate..].
    intros [= ->]. eexists. split; [apply lookup_insert_eq|]. cbn. auto.
Qed.

(** X18. After a search for which the call returned a report, the cache
    holds that report under the key of the input, stamped with the time the
    call resumed unless it was served from the cache. While that entry is
    fresh, a search for any input with the same key, whatever its letter
    case and the blanks around it, sends no request, leaves the cache as it
    is, and gets the same report from the call. *)
Theorem repeated_search (w1 w2 : world) (cache : gmap string cache_entry)
    (p1 p2 : page) (r : report) :
  let first := handleSearch w1 cache p1 in
  let second := handleSearch w2 (kept first) p2 in
  trim (cityInput_value p1) ≠ "" →
  returned (fetchWeatherData w1 cache (trim (cityInput_value p1))) = Ret r →
  cacheKey (cityInput_value p2) = cacheKey (cityInput_value p1) →
  ∃ entry,
    kept first !! cacheKey (cityInput_value p1) = Some entry ∧
    data entry = r ∧
    (timestamp entry = now_on_resume w1 ∨
     cache !! cacheKey (cityInput_value p1) = Some entry) ∧
    ( now_on_call w2 - timestamp entry < CACHE_DURATION →
      asked second = [] ∧ kept second = kept first ∧
      returned (fetchWeatherData w2 (kept first) (trim (cityInput_value p2))) = Ret r ).
Proof.
  intros first second Hcity Hret Hsame. subst first second.
  assert (∀ city, cacheKey (trim city) = cacheKey city) as Htrim.
  { intros city. unfold cacheKey. now rewrite toLowerCase_trim, trim_idempotent. }
  destruct (handleSearch_fetches w1 cache p1 Hcity) as [Hkept _].
  rewrite Hkept.
  destruct (returned_report_is_cached _ _ _ _ Hret) as (entry & Hentry & Hdata & Hstamp).
  rewrite Htrim in Hentry, Hstamp.
  exists entry. split_and!; try assumption.
  intros Hage.
  assert (WEATHER_CACHE (fetchWeatherData w1 cache (trim (cityInput_value p1)))
            !! trim (toLowerCase (trim (cityInput_value p2))) = Some entry) as Hhit.
  { change (trim (toLowerCase (trim (cityInput_value p2))))
      with (cacheKey (trim (cityInput_value p2))).
    now rewrite Htrim, Hsame. }
  pose proof (fresh_runs_nothing w2 _ _ _ Hhit Hage) as Hfresh.
  destruct (String.eqb_spec (trim (cityInput_value p2)) "") as [Hblank|Hcity2].
  - exfalso. apply Hcity.
    assert (cacheKey (cityInput_value p1) = "") as Hkey.
    { rewrite <- Hsame, <- Htrim, Hblank. reflexivity. }
    rewrite <- Htrim in Hkey. unfold cacheKey in Hkey.
    destruct (trim (cityInput_value p1)) as [|c rest] eqn:Ht; [reflexivity|].
    rewrite <- Ht, toLowerCase_trim, trim_idempotent, <- toLowerCase_trim, Ht in Hkey.
    discriminate.
  - destruct (handleSearch_fetches w2
                (WEATHER_CACHE (fetchWeatherData w1 cache (trim (cityInput_value p1))))
                p2 Hcity2) as [-> ->].
    rewrite Hfresh. cbn. rewrite Hdata. auto.
Qed.

End Repeated.

Lemma repeated_search_witness :
  ∃ entry,
    kept (@handleSearch integer_runtime wttr_world ∅ paris_page)
      !! cacheKey (cityInput_value paris_page) = Some entry ∧
    data entry = paris_report ∧
    (timestamp entry = now_on_resume wttr_world ∨
     (∅ : gmap string cache_entry) !! cacheKey (cityInput_value paris_page) = Some entry) ∧
    ( now_on_call offline_world - timestamp entry < CACHE_DURATION →
      asked (@handleSearch integer_runtime offline_world
               (kept (@handleSearch integer_runtime wttr_world ∅ paris_page))
               (set_cityInput_value "PARIS" blank_page)) = [] ∧
      kept (@handleSearch integer_runtime offline_world
              (kept (@handleSearch integer_runtime wttr_world ∅ paris_page))
              (set_cityInput_value "PARIS" blank_page)) =
        kept (@handleSearch integer_runtime wttr_world ∅ paris_page) ∧
      returned (@fetchWeatherData integer_runtime offline_world
                  (kept (@handleSearch integer_runtime wttr_world ∅ paris_page))
                  (trim (cityInput_value (set_cityInput_value "PARIS" blank_page)))) =
        Ret paris_report ).
Proof.
  apply (@repeated_search integer_runtime wttr_world offline_world ∅ paris_page
           (set_cityInput_value "PARIS" blank_page) paris_report).
  - discriminate.
  - reflexivity.
  - reflexivity.
Defined.
